(** * Infracost: configuration resolution and start-up orchestration

    A shallow embedding of [internal/config/config.go] and
    [cmd/infracost/main.go].

    - Go strings are byte strings ([string]); a [*T] that may be nil is an
      [option T]; an [error] result is an [option error] ([None] is nil).
    - A method with a pointer receiver takes the receiver's value and returns
      the updated value next to its result.
    - The process-wide logrus logger is an explicit [Logger] value that is
      threaded through the functions that reconfigure it.
    - [main] and the goroutine of [startUpdateCheck] are programs of a small
      process language ([Prog]); their interleavings are the runs of a step
      relation over the two tasks and the unbuffered hand-off channel. *)

From stdpp Require Import base strings list gmap sorting.
From Stdlib Require Import Ascii ZArith Lia.

Local Open Scope string_scope.
Local Open Scope Z_scope.

(** ** Errors *)

(** The error values that reach this code.  [errorString] is an opaque error
    made by [errors.New]; [withMessage] is the wrapper of [errors.Wrap] and
    [errors.WithMessage] (it has an [Unwrap] method); [levelError] is the
    error of [logrus.ParseLevel]; [NumError] is [*strconv.NumError] with
    [strconv.ErrSyntax]; [ParseError] is [*envconfig.ParseError];
    [ErrInvalidSpecification] is envconfig's sentinel of that name.

    Modelled from the spec: package [internal/events] is not part of the
    sources.  [eventsError] is its [*events.Error], the labeled event error
    of the glossary: a short label next to the error that carries the full
    human-readable message. *)
Inductive error : Type :=
| errorString (s : string)
| withMessage (msg : string) (cause : error)
| eventsError (Label : string) (Err : error)
| levelError (lvl : string)
| NumError (Func Num : string)
| ParseError (KeyName FieldName TypeName Value : string) (Err : error)
| ErrInvalidSpecification.

Module events.
Record Error := { Label : string; Err : error }.
End events.

(** [errors.As(err, &eventsError)] with a target of type [*events.Error]:
    the first error of the [Unwrap] chain that is an [*events.Error]. *)
Fixpoint errors_As (err : error) : option events.Error :=
  match err with
  | eventsError l e => Some {| events.Label := l; events.Err := e |}
  | withMessage _ cause => errors_As cause
  | _ => None
  end.

(** ** Library functions on strings *)

Module strings.

Definition lowerByte (c : ascii) : ascii :=
  let n := nat_of_ascii c in
  if ((65 <=? n) && (n <=? 90))%nat then ascii_of_nat (n + 32) else c.

(** [strings.ToLower] on the UTF-8 bytes of a string.  An ASCII capital is
    mapped to its small letter; U+0130 (bytes 196 176) and U+212A (bytes
    226 132 170) are the two other characters whose lower case is ASCII
    (i and k).  Every other byte is kept: the lower case of any other
    character is not ASCII, which is all a comparison with an ASCII name
    can observe. *)
Fixpoint ToLower (s : string) : string :=
  match s with
  | EmptyString => EmptyString
  | String "196"%char (String "176"%char r) => String "i"%char (ToLower r)
  | String "226"%char (String "132"%char (String "170"%char r)) =>
      String "k"%char (ToLower r)
  | String c r => String (lowerByte c) (ToLower r)
  end.

End strings.

Module strconv.

(** [strconv.ParseBool]. *)
Definition ParseBool (str : string) : bool + error :=
  if bool_decide (str ∈ ["1"; "t"; "T"; "TRUE"; "true"; "True"]) then inl true
  else if bool_decide (str ∈ ["0"; "f"; "F"; "FALSE"; "false"; "False"]) then inl false
  else inr (NumError "ParseBool" str).

End strconv.

(** ** logrus *)

Module logrus.

Inductive Level :=
| PanicLevel | FatalLevel | ErrorLevel | WarnLevel
| InfoLevel | DebugLevel | TraceLevel.

(** [logrus.ParseLevel]: the level name is compared in lower case. *)
Definition ParseLevel (lvl : string) : Level + error :=
  let l := strings.ToLower lvl in
  if bool_decide (l = "panic") then inl PanicLevel
  else if bool_decide (l = "fatal") then inl FatalLevel
  else if bool_decide (l = "error") then inl ErrorLevel
  else if bool_decide (l = "warn") then inl WarnLevel
  else if bool_decide (l = "warning") then inl WarnLevel
  else if bool_decide (l = "info") then inl InfoLevel
  else if bool_decide (l = "debug") then inl DebugLevel
  else if bool_decide (l = "trace") then inl TraceLevel
  else inr (levelError lvl).

(** Where the logger writes: [ioutil.Discard] or [os.Stderr]. *)
Inductive Writer := Discard | Stderr.

(** The formatter: the one a fresh logger has, or a [TextFormatter] with
    the fields that [ConfigureLogger] sets. *)
Inductive Formatter :=
| defaultFormatter
| TextFormatter (FullTimestamp DisableColors : bool)
                (SortingFunc : list string → list string).

(** The standard (process-wide) logger. *)
Record Logger := { Formatter_ : Formatter; Out : Writer; Level_ : Level }.

(** The logger of a process that has not configured it. *)
Definition std : Logger :=
  {| Formatter_ := defaultFormatter; Out := Stderr; Level_ := InfoLevel |}.

Definition SetFormatter (f : Formatter) (l : Logger) : Logger :=
  {| Formatter_ := f; Out := Out l; Level_ := Level_ l |}.
Definition SetOutput (w : Writer) (l : Logger) : Logger :=
  {| Formatter_ := Formatter_ l; Out := w; Level_ := Level_ l |}.
Definition SetLevel (v : Level) (l : Logger) : Logger :=
  {| Formatter_ := Formatter_ l; Out := Out l; Level_ := v |}.

End logrus.

(** ** The data model of package config *)

Module Project.
Record t := {
  Path : string;
  TerraformPlanFlags : string;
  TerraformBinary : string;
  TerraformWorkspace : string;
  TerraformCloudHost : string;
  TerraformCloudToken : string;
  UsageFile : string;
  TerraformUseState : bool
}.

(** The zero value, [Project{}]. *)
Definition zero : t :=
  {| Path := ""; TerraformPlanFlags := ""; TerraformBinary := "";
     TerraformWorkspace := ""; TerraformCloudHost := "";
     TerraformCloudToken := ""; UsageFile := ""; TerraformUseState := false |}.

Definition set_TerraformBinary (v : string) (p : t) : t :=
  {| Path := Path p; TerraformPlanFlags := TerraformPlanFlags p;
     TerraformBinary := v;
     TerraformWorkspace := TerraformWorkspace p;
     TerraformCloudHost := TerraformCloudHost p;
     TerraformCloudToken := TerraformCloudToken p;
     UsageFile := UsageFile p; TerraformUseState := TerraformUseState p |}.
Definition set_TerraformWorkspace (v : string) (p : t) : t :=
  {| Path := Path p; TerraformPlanFlags := TerraformPlanFlags p;
     TerraformBinary := TerraformBinary p;
     TerraformWorkspace := v;
     TerraformCloudHost := TerraformCloudHost p;
     TerraformCloudToken := TerraformCloudToken p;
     UsageFile := UsageFile p; TerraformUseState := TerraformUseState p |}.
Definition set_TerraformCloudHost (v : string) (p : t) : t :=
  {| Path := Path p; TerraformPlanFlags := TerraformPlanFlags p;
     TerraformBinary := TerraformBinary p;
     TerraformWorkspace := TerraformWorkspace p;
     TerraformCloudHost := v;
     TerraformCloudToken := TerraformCloudToken p;
     UsageFile := UsageFile p; TerraformUseState := TerraformUseState p |}.
Definition set_TerraformCloudToken (v : string) (p : t) : t :=
  {| Path := Path p; TerraformPlanFlags := TerraformPlanFlags p;
     TerraformBinary := TerraformBinary p;
     TerraformWorkspace := TerraformWorkspace p;
     TerraformCloudHost := TerraformCloudHost p;
     TerraformCloudToken := v;
     UsageFile := UsageFile p; TerraformUseState := TerraformUseState p |}.
End Project.

(** Modelled from the spec: the declarations of [Environment], [State] and
    [Credentials] are not part of the sources.  [Environment] has the fields
    that the sources assign; [State] is the persisted install record with
    its install identifier; [Credentials] is the persisted authentication
    material, kept opaque. *)
Module Environment.
Record t := {
  InstallID : string;
  HasConfigFile : bool;
  IsDefaultPricingAPIEndpoint : bool;
  Flags : list string
}.

Definition set_InstallID (v : string) (e : t) : t :=
  {| InstallID := v; HasConfigFile := HasConfigFile e;
     IsDefaultPricingAPIEndpoint := IsDefaultPricingAPIEndpoint e;
     Flags := Flags e |}.
Definition set_HasConfigFile (v : bool) (e : t) : t :=
  {| InstallID := InstallID e; HasConfigFile := v;
     IsDefaultPricingAPIEndpoint := IsDefaultPricingAPIEndpoint e;
     Flags := Flags e |}.
Definition set_IsDefaultPricingAPIEndpoint (v : bool) (e : t) : t :=
  {| InstallID := InstallID e; HasConfigFile := HasConfigFile e;
     IsDefaultPricingAPIEndpoint := v; Flags := Flags e |}.
Definition set_Flags (v : list string) (e : t) : t :=
  {| InstallID := InstallID e; HasConfigFile := HasConfigFile e;
     IsDefaultPricingAPIEndpoint := IsDefaultPricingAPIEndpoint e;
     Flags := v |}.
End Environment.

Module State.
Record t := { InstallID : string }.
Definition zero : t := {| InstallID := "" |}.
End State.

Module Credentials.
Record t := { material : string }.
Definition zero : t := {| material := "" |}.
End Credentials.

(** [Environment] is a pointer that [DefaultConfig] allocates and that is
    never nil afterwards; [State] is nil until [loadState] has run. *)
Module Config.
Record t := {
  Environment_ : Environment.t;
  State_ : option State.t;
  Credentials_ : Credentials.t;

  Version : string;
  LogLevel : string;
  NoColor : bool;
  SkipUpdateCheck : bool;

  APIKey : string;
  PricingAPIEndpoint : string;
  DefaultPricingAPIEndpoint : string;
  DashboardAPIEndpoint : string;

  Projects : list (option Project.t);
  Format : string;
  ShowSkipped : bool;
  SyncUsageFile : bool;
  Fields : list string
}.

Definition set_Environment (v : Environment.t) (c : t) : t :=
  {| Environment_ := v; State_ := State_ c; Credentials_ := Credentials_ c;
     Version := Version c; LogLevel := LogLevel c; NoColor := NoColor c;
     SkipUpdateCheck := SkipUpdateCheck c; APIKey := APIKey c;
     PricingAPIEndpoint := PricingAPIEndpoint c;
     DefaultPricingAPIEndpoint := DefaultPricingAPIEndpoint c;
     DashboardAPIEndpoint := DashboardAPIEndpoint c;
     Projects := Projects c; Format := Format c;
     ShowSkipped := ShowSkipped c; SyncUsageFile := SyncUsageFile c;
     Fields := Fields c |}.
Definition set_State (v : option State.t) (c : t) : t :=
  {| Environment_ := Environment_ c; State_ := v; Credentials_ := Credentials_ c;
     Version := Version c; LogLevel := LogLevel c; NoColor := NoColor c;
     SkipUpdateCheck := SkipUpdateCheck c; APIKey := APIKey c;
     PricingAPIEndpoint := PricingAPIEndpoint c;
     DefaultPricingAPIEndpoint := DefaultPricingAPIEndpoint c;
     DashboardAPIEndpoint := DashboardAPIEndpoint c;
     Projects := Projects c; Format := Format c;
     ShowSkipped := ShowSkipped c; SyncUsageFile := SyncUsageFile c;
     Fields := Fields c |}.
Definition set_Credentials (v : Credentials.t) (c : t) : t :=
  {| Environment_ := Environment_ c; State_ := State_ c; Credentials_ := v;
     Version := Version c; LogLevel := LogLevel c; NoColor := NoColor c;
     SkipUpdateCheck := SkipUpdateCheck c; APIKey := APIKey c;
     PricingAPIEndpoint := PricingAPIEndpoint c;
     DefaultPricingAPIEndpoint := DefaultPricingAPIEndpoint c;
     DashboardAPIEndpoint := DashboardAPIEndpoint c;
     Projects := Projects c; Format := Format c;
     ShowSkipped := ShowSkipped c; SyncUsageFile := SyncUsageFile c;
     Fields := Fields c |}.
Definition set_LogLevel (v : string) (c : t) : t :=
  {| Environment_ := Environment_ c; State_ := State_ c;
     Credentials_ := Credentials_ c;
     Version := Version c; LogLevel := v; NoColor := NoColor c;
     SkipUpdateCheck := SkipUpdateCheck c; APIKey := APIKey c;
     PricingAPIEndpoint := PricingAPIEndpoint c;
     DefaultPricingAPIEndpoint := DefaultPricingAPIEndpoint c;
     DashboardAPIEndpoint := DashboardAPIEndpoint c;
     Projects := Projects c; Format := Format c;
     ShowSkipped := ShowSkipped c; SyncUsageFile := SyncUsageFile c;
     Fields := Fields c |}.
Definition set_NoColor (v : bool) (c : t) : t :=
  {| Environment_ := Environment_ c; State_ := State_ c;
     Credentials_ := Credentials_ c;
     Version := Version c; LogLevel := LogLevel c; NoColor := v;
     SkipUpdateCheck := SkipUpdateCheck c; APIKey := APIKey c;
     PricingAPIEndpoint := PricingAPIEndpoint c;
     DefaultPricingAPIEndpoint := DefaultPricingAPIEndpoint c;
     DashboardAPIEndpoint := DashboardAPIEndpoint c;
     Projects := Projects c; Format := Format c;
     ShowSkipped := ShowSkipped c; SyncUsageFile := SyncUsageFile c;
     Fields := Fields c |}.
Definition set_SkipUpdateCheck (v : bool) (c : t) : t :=
  {| Environment_ := Environment_ c; State_ := State_ c;
     Credentials_ := Credentials_ c;
     Version := Version c; LogLevel := LogLevel c; NoColor := NoColor c;
     SkipUpdateCheck := v; APIKey := APIKey c;
     PricingAPIEndpoint := PricingAPIEndpoint c;
     DefaultPricingAPIEndpoint := DefaultPricingAPIEndpoint c;
     DashboardAPIEndpoint := DashboardAPIEndpoint c;
     Projects := Projects c; Format := Format c;
     ShowSkipped := ShowSkipped c; SyncUsageFile := SyncUsageFile c;
     Fields := Fields c |}.
Definition set_APIKey (v : string) (c : t) : t :=
  {| Environment_ := Environment_ c; State_ := State_ c;
     Credentials_ := Credentials_ c;
     Version := Version c; LogLevel := LogLevel c; NoColor := NoColor c;
     SkipUpdateCheck := SkipUpdateCheck c; APIKey := v;
     PricingAPIEndpoint := PricingAPIEndpoint c;
     DefaultPricingAPIEndpoint := DefaultPricingAPIEndpoint c;
     DashboardAPIEndpoint := DashboardAPIEndpoint c;
     Projects := Projects c; Format := Format c;
     ShowSkipped := ShowSkipped c; SyncUsageFile := SyncUsageFile c;
     Fields := Fields c |}.
Definition set_PricingAPIEndpoint (v : string) (c : t) : t :=
  {| Environment_ := Environment_ c; State_ := State_ c;
     Credentials_ := Credentials_ c;
     Version := Version c; LogLevel := LogLevel c; NoColor := NoColor c;
     SkipUpdateCheck := SkipUpdateCheck c; APIKey := APIKey c;
     PricingAPIEndpoint := v;
     DefaultPricingAPIEndpoint := DefaultPricingAPIEndpoint c;
     DashboardAPIEndpoint := DashboardAPIEndpoint c;
     Projects := Projects c; Format := Format c;
     ShowSkipped := ShowSkipped c; SyncUsageFile := SyncUsageFile c;
     Fields := Fields c |}.
Definition set_DefaultPricingAPIEndpoint (v : string) (c : t) : t :=
  {| Environment_ := Environment_ c; State_ := State_ c;
     Credentials_ := Credentials_ c;
     Version := Version c; LogLevel := LogLevel c; NoColor := NoColor c;
     SkipUpdateCheck := SkipUpdateCheck c; APIKey := APIKey c;
     PricingAPIEndpoint := PricingAPIEndpoint c;
     DefaultPricingAPIEndpoint := v;
     DashboardAPIEndpoint := DashboardAPIEndpoint c;
     Projects := Projects c; Format := Format c;
     ShowSkipped := ShowSkipped c; SyncUsageFile := SyncUsageFile c;
     Fields := Fields c |}.
Definition set_DashboardAPIEndpoint (v : string) (c : t) : t :=
  {| Environment_ := Environment_ c; State_ := State_ c;
     Credentials_ := Credentials_ c;
     Version := Version c; LogLevel := LogLevel c; NoColor := NoColor c;
     SkipUpdateCheck := SkipUpdateCheck c; APIKey := APIKey c;
     PricingAPIEndpoint := PricingAPIEndpoint c;
     DefaultPricingAPIEndpoint := DefaultPricingAPIEndpoint c;
     DashboardAPIEndpoint := v;
     Projects := Projects c; Format := Format c;
     ShowSkipped := ShowSkipped c; SyncUsageFile := SyncUsageFile c;
     Fields := Fields c |}.
Definition set_Projects (v : list (option Project.t)) (c : t) : t :=
  {| Environment_ := Environment_ c; State_ := State_ c;
     Credentials_ := Credentials_ c;
     Version := Version c; LogLevel := LogLevel c; NoColor := NoColor c;
     SkipUpdateCheck := SkipUpdateCheck c; APIKey := APIKey c;
     PricingAPIEndpoint := PricingAPIEndpoint c;
     DefaultPricingAPIEndpoint := DefaultPricingAPIEndpoint c;
     DashboardAPIEndpoint := DashboardAPIEndpoint c;
     Projects := v; Format := Format c;
     ShowSkipped := ShowSkipped c; SyncUsageFile := SyncUsageFile c;
     Fields := Fields c |}.
End Config.

(** ** envconfig *)

Module envconfig.

(** The process environment, as [os.LookupEnv] sees it. *)
Abbreviation Env := (gmap string string).

(** A string field tagged [envconfig:KEY]: set when the variable is
    present (also when it is empty), kept otherwise. *)
Definition bindString {T : Type} (env : Env) (key : string)
    (set : string → T → T) (x : T) : T :=
  match env !! key with
  | Some value => set value x
  | None => x
  end.

(** A bool field tagged [envconfig:KEY]: the value is parsed with
    [strconv.ParseBool]; a value that does not parse is a [ParseError]. *)
Definition bindBool {T : Type} (env : Env) (key field : string)
    (set : bool → T → T) (x : T) : T * option error :=
  match env !! key with
  | Some value =>
      match strconv.ParseBool value with
      | inl b => (set b x, None)
      | inr err => (x, Some (ParseError key field "bool" value err))
      end
  | None => (x, None)
  end.

(** [envconfig.Process("", c)] for a [*Config] works in two passes.

    It first gathers the fields of the struct, and while it does it replaces
    a nil pointer to a struct by a pointer to a zero struct: a nil [c.State]
    becomes [&State{}], whether or not a variable is set and also when a
    binding fails afterwards.  [c.Environment] is never nil here, and
    [Credentials] is not a pointer. *)
Definition allocState (c : Config.t) : Config.t :=
  match Config.State_ c with
  | None => Config.set_State (Some State.zero) c
  | Some _ => c
  end.

(** Then the gathered fields are visited in the order of their declaration
    and the first failure is returned, with the earlier fields already
    assigned.  Fields tagged [ignored] are skipped.

    Modelled from the spec: what is bound inside [Environment], [State]
    and [Credentials] depends on their declarations, which are not part of
    the sources; the recognised variables are those of the tagged fields
    (section 6), and no field inside the three sub-entities is bound. *)
Definition processFields (env : Env) (c : Config.t) : Config.t * option error :=
  let c := bindString env "INFRACOST_LOG_LEVEL" Config.set_LogLevel c in
  match bindBool env "INFRACOST_NO_COLOR" "NoColor" Config.set_NoColor c with
  | (c, Some err) => (c, Some err)
  | (c, None) =>
  match bindBool env "INFRACOST_SKIP_UPDATE_CHECK" "SkipUpdateCheck"
                 Config.set_SkipUpdateCheck c with
  | (c, Some err) => (c, Some err)
  | (c, None) =>
    let c := bindString env "INFRACOST_API_KEY" Config.set_APIKey c in
    let c := bindString env "INFRACOST_PRICING_API_ENDPOINT"
               Config.set_PricingAPIEndpoint c in
    let c := bindString env "INFRACOST_DEFAULT_PRICING_API_ENDPOINT"
               Config.set_DefaultPricingAPIEndpoint c in
    let c := bindString env "INFRACOST_DASHBOARD_API_ENDPOINT"
               Config.set_DashboardAPIEndpoint c in
    (c, None)
  end end.

Definition Process_Config (env : Env) (c : Config.t) : Config.t * option error :=
  processFields env (allocState c).

(** The four tagged fields of a [Project], all of them strings. *)
Definition bindProject (env : Env) (p : Project.t) : Project.t :=
  let p := bindString env "INFRACOST_TERRAFORM_BINARY"
             Project.set_TerraformBinary p in
  let p := bindString env "INFRACOST_TERRAFORM_WORKSPACE"
             Project.set_TerraformWorkspace p in
  let p := bindString env "INFRACOST_TERRAFORM_CLOUD_HOST"
             Project.set_TerraformCloudHost p in
  let p := bindString env "INFRACOST_TERRAFORM_CLOUD_TOKEN"
             Project.set_TerraformCloudToken p in
  p.

(** [envconfig.Process("", project)] for a [*Project]: a nil pointer is
    not a pointer to a struct, which is [ErrInvalidSpecification]. *)
Definition Process_Project (env : Env) (project : option Project.t)
    : option Project.t * option error :=
  match project with
  | None => (None, Some ErrInvalidSpecification)
  | Some p => (Some (bindProject env p), None)
  end.

End envconfig.

(** ** Package config *)

(** The sorting function that [ConfigureLogger] gives the formatter: the
    first key equal to "msg" that is not the last one is swapped with the
    last one. *)
Fixpoint firstMsg (i n : nat) (keys : list string) : option nat :=
  match keys with
  | [] => None
  | key :: rest =>
      if bool_decide (key = "msg") && negb (i =? n - 1)%nat then Some i
      else firstMsg (S i) n rest
  end.

Definition SortingFunc (keys : list string) : list string :=
  let last := (length keys - 1)%nat in
  match firstMsg 0 (length keys) keys with
  | Some i =>
      match keys !! i, keys !! last with
      | Some ki, Some kl => <[last := ki]> (<[i := kl]> keys)
      | _, _ => keys
      end
  | None => keys
  end.

(** Modelled from the spec: [NewEnvironment] is not part of the sources; a
    fresh [Environment] has no install identifier, no config file and no
    flags yet (they are "filled in incrementally as resolution proceeds"). *)
Definition NewEnvironment : Environment.t :=
  {| Environment.InstallID := ""; Environment.HasConfigFile := false;
     Environment.IsDefaultPricingAPIEndpoint := false;
     Environment.Flags := [] |}.

Definition DefaultConfig : Config.t :=
  {| Config.Environment_ := NewEnvironment;
     Config.State_ := None;
     Config.Credentials_ := Credentials.zero;
     Config.Version := "";
     Config.LogLevel := "";
     Config.NoColor := false;
     Config.SkipUpdateCheck := false;
     Config.APIKey := "";
     Config.DefaultPricingAPIEndpoint := "https://pricing.api.infracost.io";
     Config.PricingAPIEndpoint := "https://pricing.api.infracost.io";
     Config.DashboardAPIEndpoint := "https://dashboard.api.infracost.io";
     Config.Projects := [Some Project.zero];
     Config.Format := "table";
     Config.ShowSkipped := false;
     Config.SyncUsageFile := false;
     Config.Fields := ["monthlyQuantity"; "unit"; "monthlyCost"] |}.

(** The loop of [loadEnvVars] over [c.Projects]: it stops at the first
    project whose binding fails; the projects before it are already bound.
    The elements are pointers in the source; binding the same environment
    twice gives the same project, so a pointer that occurs twice is bound as
    if it occurred once. *)
Fixpoint processProjects (env : envconfig.Env) (projects : list (option Project.t))
    : list (option Project.t) * option error :=
  match projects with
  | [] => ([], None)
  | project :: rest =>
      match envconfig.Process_Project env project with
      | (project, Some err) => (project :: rest, Some err)
      | (project, None) =>
          let '(rest, err) := processProjects env rest in
          (project :: rest, err)
      end
  end.

Definition loadEnvVars (env : envconfig.Env) (c : Config.t) : Config.t * option error :=
  match envconfig.Process_Config env c with
  | (c, Some err) => (c, Some err)
  | (c, None) =>
      let '(projects, err) := processProjects env (Config.Projects c) in
      (Config.set_Projects projects c, err)
  end.

Definition ConfigureLogger (c : Config.t) (std : logrus.Logger)
    : logrus.Logger * option error :=
  let std := logrus.SetFormatter (logrus.TextFormatter true true SortingFunc) std in
  if bool_decide (Config.LogLevel c = "") then
    (logrus.SetOutput logrus.Discard std, None)
  else
    let std := logrus.SetOutput logrus.Stderr std in
    match logrus.ParseLevel (Config.LogLevel c) with
    | inr err => (std, Some err)
    | inl level => (logrus.SetLevel level std, None)
    end.

Definition IsLogging (c : Config.t) : bool :=
  negb (bool_decide (Config.LogLevel c = "")).

(** What a config file holds for this code: its projects. *)
Module ConfigFileSpec.
Record t := { Projects : list (option Project.t) }.
End ConfigFileSpec.

(** What the process finds outside itself: the environment variables (once
    [init] has loaded the dotenv files into them), and the outcomes of the
    loaders that are not part of the sources.

    Modelled from the spec: [loadState] reads the persisted install record
    and fails when it is corrupt; [loadCredentials] reads the persisted
    credentials and fails when they are malformed; [LoadConfigFile] parses
    the file at a path into its projects or fails. *)
Record World := {
  Environ : envconfig.Env;
  stateFile : State.t + error;
  credentialsFile : Credentials.t + error;
  LoadConfigFile : string → ConfigFileSpec.t + error
}.

Definition loadState (w : World) (c : Config.t) : Config.t * option error :=
  match stateFile w with
  | inl st => (Config.set_State (Some st) c, None)
  | inr err => (c, Some err)
  end.

Definition loadCredentials (w : World) (c : Config.t) : Config.t * option error :=
  match credentialsFile w with
  | inl cr => (Config.set_Credentials cr c, None)
  | inr err => (c, Some err)
  end.

(** How a call ends: it returns its error result, or it ends the process:
    [logrus.Fatal] logs the error and calls [os.Exit(1)]; a nil pointer
    dereference is a run-time panic with no handler installed yet. *)
Inductive Completion :=
| Return (err : option error)
| Fatal (err : error)
| NilDereference.

Definition LoadFromEnv (w : World) (c : Config.t) (std : logrus.Logger)
    : Config.t * logrus.Logger * Completion :=
  match loadEnvVars (Environ w) c with
  | (c, Some err) => (c, std, Return (Some err))
  | (c, None) =>
  match ConfigureLogger c std with
  | (std, Some err) => (c, std, Return (Some err))
  | (std, None) =>
  match loadState w c with
  | (c, Some err) => (c, std, Fatal err)
  | (c, None) =>
  match Config.State_ c with
  | None => (c, std, NilDereference)
  | Some st =>
  let c := Config.set_Environment
             (Environment.set_InstallID (State.InstallID st) (Config.Environment_ c)) c in
  match loadCredentials w c with
  | (c, Some err) => (c, std, Fatal err)
  | (c, None) => (c, std, Return None)
  end end end end end.

Definition LoadFromConfigFile (w : World) (path : string) (c : Config.t)
    (std : logrus.Logger) : Config.t * logrus.Logger * Completion :=
  match LoadConfigFile w path with
  | inr err => (c, std, Return (Some err))
  | inl cfgFile =>
      let c := Config.set_Environment
                 (Environment.set_HasConfigFile true (Config.Environment_ c)) c in
      let c := Config.set_Projects (ConfigFileSpec.Projects cfgFile) c in
      (* Reload the environment to overwrite any of the config file configs *)
      match LoadFromEnv w c std with
      | (c, std, Return (Some err)) => (c, std, Return (Some err))
      | (c, std, Return None) => (c, std, Return None)
      | (c, std, ended) => (c, std, ended)
      end
  end.

(** ** pflag: the flags of the selected command *)

Module pflag.

Inductive Value :=
| boolValue (b : bool)
| stringValue (s : string)
| otherValue (typ : string) (s : string).

Record Flag := { Value_ : Value; Changed_ : bool }.

(** [cmd.Flags()]: the flags of the command by name. *)
Abbreviation FlagSet := (gmap string Flag).

(** [Changed]: false for a name that is not defined. *)
Definition Changed (f : FlagSet) (name : string) : bool :=
  match f !! name with
  | Some flag => Changed_ flag
  | None => false
  end.

(** [GetBool] and [GetString], without their error result, which the
    callers drop: the zero value when the flag is not defined or has
    another type. *)
Definition GetBool (f : FlagSet) (name : string) : bool :=
  match f !! name with
  | Some {| Value_ := boolValue b |} => b
  | _ => false
  end.

Definition GetString (f : FlagSet) (name : string) : string :=
  match f !! name with
  | Some {| Value_ := stringValue s |} => s
  | _ => ""
  end.

Definition name_le (a b : string) : Prop := String.leb a b = true.

#[global] Instance name_le_dec : RelDecision name_le.
Proof. intros a b. unfold name_le. apply _. Defined.

(** [Visit] calls its function on the flags that have been set, in
    lexicographical order of their names; here: the names it appends. *)
Definition Visit (f : FlagSet) : list string :=
  merge_sort name_le
    (omap (λ kv : string * Flag, if Changed_ kv.2 then Some kv.1 else None)
          (map_to_list f)).

End pflag.

(** The globals that [loadGlobalFlags] writes: the standard logger and
    [color.NoColor]. *)
Record Globals := { std : logrus.Logger; color_NoColor : bool }.

Definition loadGlobalFlags (cfg : Config.t) (flags : pflag.FlagSet) (g : Globals)
    : Config.t * Globals * option error :=
  let cfg :=
    if pflag.Changed flags "no-color"
    then Config.set_NoColor (pflag.GetBool flags "no-color") cfg
    else cfg in
  let g := {| std := std g; color_NoColor := Config.NoColor cfg |} in
  let rest (cfg : Config.t) (g : Globals) :=
    let cfg :=
      if pflag.Changed flags "pricing-api-endpoint"
      then Config.set_PricingAPIEndpoint
             (pflag.GetString flags "pricing-api-endpoint") cfg
      else cfg in
    let cfg :=
      Config.set_Environment
        (Environment.set_IsDefaultPricingAPIEndpoint
           (bool_decide (Config.PricingAPIEndpoint cfg
                         = Config.DefaultPricingAPIEndpoint cfg))
           (Config.Environment_ cfg)) cfg in
    let flagNames := pflag.Visit flags in
    let cfg :=
      Config.set_Environment
        (Environment.set_Flags flagNames (Config.Environment_ cfg)) cfg in
    (cfg, g, None) in
  if pflag.Changed flags "log-level" then
    let cfg := Config.set_LogLevel (pflag.GetString flags "log-level") cfg in
    match ConfigureLogger cfg (std g) with
    | (l, Some err) => (cfg, {| std := l; color_NoColor := color_NoColor g |}, Some err)
    | (l, None) => rest cfg {| std := l; color_NoColor := color_NoColor g |}
    end
  else rest cfg g.

(** ** Package ui *)

Module ui.

Definition isParam (c : ascii) : bool :=
  let n := nat_of_ascii c in ((48 <=? n) && (n <=? 59) && negb (n =? 58))%nat.

(** The number of bytes of the colour code that [s] starts with, after
    the escape byte: an opening bracket, digits and semicolons, and the
    letter m. *)
Fixpoint paramsLength (s : string) : option nat :=
  match s with
  | EmptyString => None
  | String c r =>
      if Ascii.eqb c "m" then Some 1%nat
      else if isParam c then S <$> paramsLength r
      else None
  end.

Definition codeLength (s : string) : option nat :=
  match s with
  | String "["%char r => S <$> paramsLength r
  | _ => None
  end.

Fixpoint strip (skip : nat) (s : string) : string :=
  match s with
  | EmptyString => EmptyString
  | String c r =>
      match skip with
      | S n => strip n r
      | O =>
          if Ascii.eqb c "027" then
            match codeLength r with
            | Some n => strip n r
            | None => String c (strip 0 r)
            end
          else String c (strip 0 r)
      end
  end.

(** Modelled from the spec: package [internal/ui] is not part of the
    sources.  [StripColor] strips the display-formatting codes from a
    message: the colour sequences of a terminal (escape, bracket,
    parameters, m) are removed and every other byte is kept. *)
Definition StripColor (str : string) : string := strip 0 str.

End ui.

(** ** Package update *)

Module update.

Record Info := { LatestVersion : string; Cmd : string }.

(** The two results of [CheckForUpdate(cfg)], which is not part of the
    sources. *)
Record Answer := { updateInfo : option Info; err : option error }.

(** A check that succeeds, with the update that is available, if any. *)
Definition Latest (u : option Info) : Answer :=
  {| updateInfo := u; err := None |}.

(** Modelled from the spec: a failed check carries no update (it is
    "treated as no update available"). *)
Definition Failure (e : error) : Answer :=
  {| updateInfo := None; err := Some e |}.

End update.

(** ** Processes *)

(** What a task does that can be observed. *)
Inductive Event :=
| LogFatal (err : error)
| RunBody
| CommandOutput (s : string)
| SpinnerFail
| Fprintln_Stderr (s : string)
| PrintError (msg : string)
| PrintUnexpectedError (v stack : string)
| SendReport (cfg : Config.t) (key msg : string)
| CheckForUpdate
| Debugf (msg : string)
| UpgradeNotice (updateInfo : update.Info).

(** A task: it does something observable, starts a goroutine, sends on,
    receives from or closes the hand-off channel, ends the process with
    [os.Exit], or returns. *)
Inductive Prog :=
| Emit (e : Event) (k : Prog)
| Go (task : Prog) (k : Prog)
| Send (v : option update.Info) (k : Prog)
| Recv (k : option update.Info → Prog)
| Close (k : Prog)
| Exit (code : Z)
| Ret.

(** A statement is a program with a hole for what follows it. *)
Definition Stmt := Prog → Prog.

Definition seq (a b : Stmt) : Stmt := λ k, a (b k).
Definition skip : Stmt := λ k, k.
Definition when (b : bool) (a : Stmt) : Stmt := if b then a else skip.
Definition emits (l : list Event) : Stmt := λ k, foldr Emit k l.

Declare Scope stmt_scope.
Delimit Scope stmt_scope with stmt.
Bind Scope stmt_scope with Stmt.
Notation "a ;; b" := (seq a b)
  (at level 100, b at level 200, right associativity) : stmt_scope.

Inductive Tid := MainTask | CheckerTask.

(** What a run leaves in its trace: an event of a task, the hand-off of a
    value from the sender to the receiver, or a receive from the closed
    channel. *)
Inductive Obs :=
| Did (t : Tid) (e : Event)
| Handoff (v : option update.Info)
| ReceivedNil.

(** The process: the main task, the goroutine once it is started, whether
    the channel is closed, and the trace so far. *)
Record Sys := {
  main_task : Prog;
  checker : option Prog;
  closed : bool;
  trace : list Obs
}.

(** The exit status of the process, once the main task is over: the code
    given to [os.Exit], or 0 when [main] returns. *)
Definition exit_status (p : Prog) : option Z :=
  match p with
  | Exit code => Some code
  | Ret => Some 0
  | _ => None
  end.

Definition running (s : Sys) : Prop := exit_status (main_task s) = None.

(** One step of the process.  The channel is unbuffered: a send and a
    receive happen together.  A receive from the closed channel gives nil.
    Nothing runs once the main task is over.  (A send on the closed channel
    and a second close are run-time panics and have no step.) *)
Inductive step : Sys → Sys → Prop :=
| step_main_emit e k c b t :
    step {| main_task := Emit e k; checker := c; closed := b; trace := t |}
         {| main_task := k; checker := c; closed := b;
            trace := t ++ [Did MainTask e] |}
| step_go task k b t :
    step {| main_task := Go task k; checker := None; closed := b; trace := t |}
         {| main_task := k; checker := Some task; closed := b; trace := t |}
| step_checker_emit m e k b t :
    exit_status m = None →
    step {| main_task := m; checker := Some (Emit e k); closed := b; trace := t |}
         {| main_task := m; checker := Some k; closed := b;
            trace := t ++ [Did CheckerTask e] |}
| step_handoff k v k' t :
    step {| main_task := Recv k; checker := Some (Send v k'); closed := false;
            trace := t |}
         {| main_task := k v; checker := Some k'; closed := false;
            trace := t ++ [Handoff v] |}
| step_recv_closed k c t :
    step {| main_task := Recv k; checker := c; closed := true; trace := t |}
         {| main_task := k None; checker := c; closed := true;
            trace := t ++ [ReceivedNil] |}
| step_close m k t :
    exit_status m = None →
    step {| main_task := m; checker := Some (Close k); closed := false; trace := t |}
         {| main_task := m; checker := Some k; closed := true; trace := t |}.

(** [steps s n s']: a run of [n] steps from [s] to [s']. *)
Inductive steps (s : Sys) : nat → Sys → Prop :=
| steps_O : steps s 0 s
| steps_S n s' s'' : steps s n s' → step s' s'' → steps s (S n) s''.

Definition start (p : Prog) : Sys :=
  {| main_task := p; checker := None; closed := false; trace := [] |}.

(** ** Package main *)

(** How Go formats a string with the verb q ([strconv.Quote]); only the
    texts of library errors use it. *)
Class Fmt := { Quote : string → string }.

(** How the command ends: [rootCmd.Execute()] returns its error, or a panic
    leaves it, with the value that [recover()] gives in the deferred
    function and the stack that [debug.Stack] finds.  The value is the
    panic value as the verb s prints it; it is nil ([None]) when the body
    called [panic(nil)]: up to Go 1.20 [recover()] then returns nil although
    it stops the panic (from Go 1.21 on it returns a
    [*runtime.PanicNilError], and a panic always has a value). *)
Inductive Outcome :=
| Returned (err : option error)
| Panicked (unexpectedErr : option string) (stack : string).

(** What running a subcommand body does: what it leaves in the [Config],
    whether it leaves the package variable [spinner] set, what it prints,
    and how it ends. *)
Record Run := {
  cfg_after : Config.t;
  spinner_after : bool;
  output : list string;
  outcome : Outcome
}.

(** What cobra makes of the command line: it rejects it with an error, or
    it selects a command with its flags and its body. *)
Inductive Args :=
| BadArgs (err : error)
| Selected (flags : pflag.FlagSet) (body : Config.t → Globals → Run).

(** The inputs of one invocation. *)
Record Inputs := {
  world : World;
  noColor : bool;
  args : Args;
  answer : update.Answer
}.

Section Orchestrator.
Context `{Fmt}.

(** The method [Error] of each error.  Modelled from the spec: the message
    of an [*events.Error] is the one of the error it carries. *)
Fixpoint Error (err : error) : string :=
  match err with
  | errorString s => s
  | withMessage msg cause => msg ++ ": " ++ Error cause
  | eventsError _ e => Error e
  | levelError lvl => "not a valid logrus Level: " ++ Quote lvl
  | NumError fn num =>
      "strconv." ++ fn ++ ": parsing " ++ Quote num ++ ": invalid syntax"
  | ParseError key field typ value e =>
      "envconfig.Process: assigning " ++ key ++ " to " ++ field
      ++ ": converting '" ++ value ++ "' to type " ++ typ
      ++ ". details: " ++ Error e
  | ErrInvalidSpecification => "specification must be a struct pointer"
  end.

(** The goroutine of [startUpdateCheck].  It is given the pointer [cfg],
    not a copy: [CheckForUpdate] reads the [Config] that the main task goes
    on writing ([loadGlobalFlags], the body of the command), and [Debugf]
    goes through the logger of the process that [loadGlobalFlags]
    reconfigures, with nothing that orders the two tasks.  So the event of
    the call carries no [Config], what the call returns is the input
    [answer] of the invocation, whatever [Config] it has read, and [Debugf]
    is the call with its message, not what the logger writes.

    Modelled from the spec: [CheckForUpdate] is not part of the sources; it
    only reads the [Config] and never writes it (section 6). *)
Definition updateCheck (a : update.Answer) : Prog :=
  (Emit CheckForUpdate ;;
   match update.err a with
   | Some err => Emit (Debugf ("error checking for update: " ++ Error err))
   | None => skip
   end ;;
   Send (update.updateInfo a) ;;
   Close)%stmt Ret.

Definition startUpdateCheck (a : update.Answer) : Stmt :=
  Go (updateCheck a).

(** The message of the event report of [handleAppErr]. *)
Definition reportMessage (err : error) : string :=
  let msg := ui.StripColor (Error err) in
  match errors_As err with
  | Some evErr => ui.StripColor (events.Label evErr)
  | None => msg
  end.

Definition handleAppErr (cfg : Config.t) (spinner : bool) (err : error) : Stmt :=
  (when spinner (Emit SpinnerFail ;; Emit (Fprintln_Stderr "")) ;;
   when (negb (bool_decide (Error err = ""))) (Emit (PrintError (Error err))) ;;
   Emit (SendReport cfg "error" (reportMessage err)))%stmt.

Definition handleUnexpectedErr (cfg : Config.t) (spinner : bool)
    (unexpectedErr stack : string) : Stmt :=
  (when spinner (Emit SpinnerFail ;; Emit (Fprintln_Stderr "")) ;;
   Emit (PrintUnexpectedError unexpectedErr stack) ;;
   Emit (SendReport cfg "error"
           (unexpectedErr ++ String "010" EmptyString ++ stack)))%stmt.

Definition handleUpdateMessage : Stmt :=
  λ k, Recv (λ updateInfo,
    match updateInfo with
    | Some info => Emit (UpgradeNotice info) k
    | None => k
    end).

(** The deferred function of [main], for the value of [appErr] and the
    value that [recover()] returns when it runs. *)
Definition deferred (cfg : Config.t) (spinner : bool) (appErr : option error)
    (unexpectedErr : option (string * string)) : Prog :=
  (match appErr with
   | Some err => handleAppErr cfg spinner err
   | None => skip
   end ;;
   match unexpectedErr with
   | Some (v, stack) => handleUnexpectedErr cfg spinner v stack
   | None => skip
   end ;;
   handleUpdateMessage)%stmt
  (if bool_decide (appErr ≠ None ∨ unexpectedErr ≠ None) then Exit 1 else Ret).

(** [rootCmd.Execute()]: cobra runs [PersistentPreRunE], which is
    [loadGlobalFlags], and then the body of the selected command, unless
    the hook returns an error. *)
Definition Execute (a : Args) (cfg : Config.t) (g : Globals) : list Event * Run :=
  match a with
  | BadArgs err =>
      ([], {| cfg_after := cfg; spinner_after := false; output := [];
              outcome := Returned (Some err) |})
  | Selected flags body =>
      match loadGlobalFlags cfg flags g with
      | (cfg, g, Some err) =>
          ([], {| cfg_after := cfg; spinner_after := false; output := [];
                  outcome := Returned (Some err) |})
      | (cfg, g, None) =>
          let r := body cfg g in
          (RunBody :: map CommandOutput (output r), r)
      end
  end.

(** The deferred function as it runs when the command is over: after a
    return, [appErr] is the error that [Execute] returned and there is
    nothing to recover; in a panic, the assignment to [appErr] never
    happened, [appErr] is still the result of [LoadFromEnv], and [recover()]
    gives the panic value, which may be nil; the panic is stopped either
    way, and [main] returns when the deferred function does. *)
Definition unwind (appErr : option error) (r : Run) : Prog :=
  match outcome r with
  | Returned err =>
      deferred (cfg_after r) (spinner_after r) err None
  | Panicked (Some v) stack =>
      deferred (cfg_after r) (spinner_after r) appErr (Some (v, stack))
  | Panicked None _ =>
      deferred (cfg_after r) (spinner_after r) appErr None
  end.

(** [main] from [rootCmd.Execute()] on. *)
Definition executeCommand (i : Inputs) (cfg : Config.t) (l : logrus.Logger)
    (appErr : option error) : Prog :=
  let '(evs, r) :=
    Execute (args i) cfg {| std := l; color_NoColor := noColor i |} in
  emits evs (unwind appErr r).

Definition main (i : Inputs) : Prog :=
  let cfg := DefaultConfig in
  match LoadFromEnv (world i) cfg logrus.std with
  | (_, _, Fatal err) => Emit (LogFatal err) (Exit 1)
  | (_, _, NilDereference) => Exit 2
  | (cfg, l, Return appErr) =>
      startUpdateCheck (answer i) (executeCommand i cfg l appErr)
  end.

End Orchestrator.

(** [checkAPIKey].  [ui.PrimaryString] is not part of the sources and is a
    parameter. *)
Definition checkAPIKey (PrimaryString : string → string)
    (apiKey apiEndpoint defaultEndpoint : string) : option error :=
  if bool_decide (apiEndpoint = defaultEndpoint) && bool_decide (apiKey = "") then
    Some (errorString
            ("No INFRACOST_API_KEY environment variable is set."
             ++ String "010"
                  "We run a free Cloud Pricing API, to get an API key run "
             ++ PrimaryString "infracost register"))
  else None.

(** ** The dotenv files *)

Module godotenv.

(** [godotenv.Load(file)] for what reading and parsing the file gives: the
    variables of the file that the process does not have yet are set, the
    others are kept as they are; a file that cannot be read or parsed sets
    nothing. *)
Definition Load (file : gmap string string + error) (env : envconfig.Env)
    : envconfig.Env * option error :=
  match file with
  | inl vars => (env ∪ vars, None)
  | inr err => (env, Some err)
  end.

End godotenv.

(** The two files that [loadDotEnv] looks for: [.env.local] in [RootDir()]
    and [.env] in the working directory; [None] when [fileExists] says no
    ([RootDir] and [fileExists] are not part of the sources). *)
Record DotEnvFiles := {
  envLocal : option (gmap string string + error);
  dotEnv : option (gmap string string + error)
}.

Definition loadDotEnv (fs : DotEnvFiles) (env : envconfig.Env)
    : envconfig.Env * option error :=
  match
    match envLocal fs with
    | Some file => godotenv.Load file env
    | None => (env, None)
    end
  with
  | (env, Some err) => (env, Some err)
  | (env, None) =>
      match dotEnv fs with
      | Some file =>
          match godotenv.Load file env with
          | (env, Some err) => (env, Some err)
          | (env, None) => (env, None)
          end
      | None => (env, None)
      end
  end.

(** [init]: an error of [loadDotEnv] goes to [log.Fatal], which ends the
    process with status 1. *)
Definition init (fs : DotEnvFiles) (env : envconfig.Env)
    : envconfig.Env * Completion :=
  match loadDotEnv fs env with
  | (env, Some err) => (env, Fatal err)
  | (env, None) => (env, Return None)
  end.

(** ** Views of programs and traces *)

Local Close Scope string_scope.

(** The events with which a program starts, and what comes after them. *)
Fixpoint prefix_events (p : Prog) : list Event :=
  match p with
  | Emit e k => e :: prefix_events k
  | _ => []
  end.

Fixpoint after_prefix (p : Prog) : Prog :=
  match p with
  | Emit _ k => after_prefix k
  | _ => p
  end.

(** The events of one task in a trace, and the sends and receives on the
    channel. *)
Definition proj (tid : Tid) (t : list Obs) : list Event :=
  omap (λ o, match o, tid with
             | Did MainTask e, MainTask => Some e
             | Did CheckerTask e, CheckerTask => Some e
             | _, _ => None
             end) t.

Definition channel_ops (t : list Obs) : list Obs :=
  omap (λ o, match o with Did _ _ => None | _ => Some o end) t.

(** The number of steps that a program has left when its receive gets [v]. *)
Fixpoint psize (v : option update.Info) (p : Prog) : nat :=
  match p with
  | Emit _ k => S (psize v k)
  | Go task k => S (psize v task + psize v k)
  | Send _ k => S (psize v k)
  | Recv k => S (psize v (k v))
  | Close k => S (psize v k)
  | Exit _ | Ret => 0
  end.

Definition sys_size (v : option update.Info) (s : Sys) : nat :=
  psize v (main_task s) + from_option (psize v) 0%nat (checker s).

(** The states of a process whose main task starts a goroutine [chk] that
    does some events, sends [v] and closes the channel, and then goes on as
    [rest], which does some events and receives, to go on as [k]: before the
    goroutine is started, before the hand-off, and after it. *)
Inductive Inv (chk rest : Prog) (v : option update.Info)
    (k : option update.Info → Prog) : Sys → Prop :=
| Inv_start : Inv chk rest v k (start (Go chk rest))
| Inv_before b1 b2 c1 c2 t :
    prefix_events rest = b1 ++ b2 →
    prefix_events chk = c1 ++ c2 →
    proj MainTask t = b1 →
    proj CheckerTask t = c1 →
    channel_ops t = [] →
    Inv chk rest v k
      {| main_task := emits b2 (Recv k);
         checker := Some (emits c2 (Send v (Close Ret)));
         closed := false; trace := t |}
| Inv_after p1 p2 t c b :
    prefix_events (k v) = p1 ++ p2 →
    proj MainTask t = prefix_events rest →
    proj CheckerTask t = prefix_events chk →
    channel_ops t = [] →
    (c = Close Ret ∧ b = false ∨ c = Ret ∧ b = true) →
    Inv chk rest v k
      {| main_task := emits p2 (after_prefix (k v));
         checker := Some c; closed := b;
         trace := t ++ Handoff v :: map (Did MainTask) p1 |}.

(** ** The vocabulary of the properties *)

(** The start-up of [main]: [DefaultConfig] followed by [LoadFromEnv]. *)
Definition startup (i : Inputs) : Config.t * logrus.Logger * Completion :=
  LoadFromEnv (world i) DefaultConfig logrus.std.

(** What [rootCmd.Execute()] does with the configuration and the logger
    that the start-up leaves. *)
Definition command (i : Inputs) (cfg : Config.t) (l : logrus.Logger)
    : list Event * Run :=
  Execute (args i) cfg {| std := l; color_NoColor := noColor i |}.

(** The values of [appErr] and of [recover()] in the deferred function. *)
Definition final_appErr (appErr : option error) (o : Outcome) : option error :=
  match o with
  | Returned err => err
  | Panicked _ _ => appErr
  end.

Definition recovered (o : Outcome) : option (string * string) :=
  match o with
  | Returned _ => None
  | Panicked (Some v) stack => Some (v, stack)
  | Panicked None _ => None
  end.

(** The upgrade notice for a drained value. *)
Definition notice (u : option update.Info) : list Event :=
  match u with
  | Some info => [UpgradeNotice info]
  | None => []
  end.

Definition is_report (e : Event) : bool :=
  match e with SendReport _ _ _ => true | _ => false end.

Definition is_notice (e : Event) : bool :=
  match e with UpgradeNotice _ => true | _ => false end.

(** What the deferred function does before the drain: error and fault
    output and the event report. *)
Definition is_reporting (e : Event) : bool :=
  match e with
  | SpinnerFail | Fprintln_Stderr _ | PrintError _
  | PrintUnexpectedError _ _ | SendReport _ _ _ => true
  | _ => false
  end.

(** What the command itself does. *)
Definition is_command (e : Event) : bool :=
  match e with RunBody | CommandOutput _ => true | _ => false end.

(** The variables that are bound to string fields of a [Project], to string
    fields of the [Config] and to bool fields of the [Config], each with the
    field it is bound to. *)
Definition projectVars : list (string * (Project.t → string)) :=
  [("INFRACOST_TERRAFORM_BINARY", Project.TerraformBinary);
   ("INFRACOST_TERRAFORM_WORKSPACE", Project.TerraformWorkspace);
   ("INFRACOST_TERRAFORM_CLOUD_HOST", Project.TerraformCloudHost);
   ("INFRACOST_TERRAFORM_CLOUD_TOKEN", Project.TerraformCloudToken)]%string.

Definition configStringVars : list (string * (Config.t → string)) :=
  [("INFRACOST_LOG_LEVEL", Config.LogLevel);
   ("INFRACOST_API_KEY", Config.APIKey);
   ("INFRACOST_PRICING_API_ENDPOINT", Config.PricingAPIEndpoint);
   ("INFRACOST_DEFAULT_PRICING_API_ENDPOINT", Config.DefaultPricingAPIEndpoint);
   ("INFRACOST_DASHBOARD_API_ENDPOINT", Config.DashboardAPIEndpoint)]%string.

Definition configBoolVars : list (string * (Config.t → bool)) :=
  [("INFRACOST_NO_COLOR", Config.NoColor);
   ("INFRACOST_SKIP_UPDATE_CHECK", Config.SkipUpdateCheck)]%string.

(** [x] has the value of the environment in every field whose variable is
    set. *)
Definition boundStrings {T : Type} (vars : list (string * (T → string)))
    (env : envconfig.Env) (x : T) : Prop :=
  ∀ key field value,
    (key, field) ∈ vars → env !! key = Some value → field x = value.

Definition boundBools {T : Type} (vars : list (string * (T → bool)))
    (env : envconfig.Env) (x : T) : Prop :=
  ∀ key field value,
    (key, field) ∈ vars → env !! key = Some value →
    strconv.ParseBool value = inl (field x).

(** The level names that logrus knows, in lower case. *)
Definition levelNames : list (string * logrus.Level) :=
  [("panic", logrus.PanicLevel); ("fatal", logrus.FatalLevel);
   ("error", logrus.ErrorLevel); ("warn", logrus.WarnLevel);
   ("warning", logrus.WarnLevel); ("info", logrus.InfoLevel);
   ("debug", logrus.DebugLevel); ("trace", logrus.TraceLevel)]%string.

(** A recognized level name: a known name, in any case. *)
Definition recognized (name : string) : Prop :=
  ∃ level, (strings.ToLower name, level) ∈ levelNames.

(** The formatter that [ConfigureLogger] installs. *)
Definition infracostFormatter : logrus.Formatter :=
  logrus.TextFormatter true true SortingFunc.

(** What follows the drain: the notice, if any, and the end of [main]. *)
Definition afterDrain (appErr : option error) (unexpectedErr : option (string * string))
    (updateInfo : option update.Info) : Prog :=
  match updateInfo with
  | Some info =>
      Emit (UpgradeNotice info)
        (if bool_decide (appErr ≠ None ∨ unexpectedErr ≠ None) then Exit 1 else Ret)
  | None => if bool_decide (appErr ≠ None ∨ unexpectedErr ≠ None) then Exit 1 else Ret
  end.

(** The same invocation with another answer of the update service. *)
Definition with_answer (a : update.Answer) (i : Inputs) : Inputs :=
  {| world := world i; noColor := noColor i; args := args i; answer := a |}.

(** One schedule: the main task runs whenever it can, the goroutine when
    the main task waits for it. *)
Definition next (s : Sys) : option Sys :=
  match main_task s, checker s, closed s with
  | Emit e k, c, b =>
      Some {| main_task := k; checker := c; closed := b;
              trace := trace s ++ [Did MainTask e] |}
  | Go task k, None, b =>
      Some {| main_task := k; checker := Some task; closed := b; trace := trace s |}
  | Recv k, Some (Send v k'), false =>
      Some {| main_task := k v; checker := Some k'; closed := false;
              trace := trace s ++ [Handoff v] |}
  | Recv k, c, true =>
      Some {| main_task := k None; checker := c; closed := true;
              trace := trace s ++ [ReceivedNil] |}
  | Recv k, Some (Emit e k'), false =>
      Some {| main_task := Recv k; checker := Some k'; closed := false;
              trace := trace s ++ [Did CheckerTask e] |}
  | _, _, _ => None
  end.

Fixpoint run (fuel : nat) (s : Sys) : nat * Sys :=
  match fuel with
  | O => (O, s)
  | S fuel =>
      match next s with
      | Some s' => let '(n, s'') := run fuel s' in (S n, s'')
      | None => (O, s)
      end
  end.

(** What the goroutine of the update check does. *)
Definition is_check (e : Event) : bool :=
  match e with CheckForUpdate | Debugf _ => true | _ => false end.

(** The events of a trace, whoever did them. *)
Definition events_of (t : list Obs) : list Event :=
  omap (λ o, match o with Did _ e => Some e | _ => None end) t.

(** The event reports of a trace. *)
Definition reports (t : list Obs) : list Event :=
  List.filter is_report (events_of t).

(** ** Sample inputs *)

Local Open Scope string_scope.

Definition projectA : Project.t :=
  {| Project.Path := "examples/a"; Project.TerraformPlanFlags := "";
     Project.TerraformBinary := "terraform_0.12";
     Project.TerraformWorkspace := "dev"; Project.TerraformCloudHost := "";
     Project.TerraformCloudToken := ""; Project.UsageFile := "";
     Project.TerraformUseState := false |}.

Definition projectB : Project.t :=
  {| Project.Path := "examples/b"; Project.TerraformPlanFlags := "-var-file=b.tfvars";
     Project.TerraformBinary := "";
     Project.TerraformWorkspace := ""; Project.TerraformCloudHost := "";
     Project.TerraformCloudToken := ""; Project.UsageFile := "usage.yml";
     Project.TerraformUseState := true |}.

(** A world with a readable state file, no credentials yet and one config
    file with two projects. *)
Definition sampleWorld (env : envconfig.Env) : World :=
  {| Environ := env;
     stateFile := inl {| State.InstallID := "f3b1c0de" |};
     credentialsFile := inl Credentials.zero;
     LoadConfigFile := λ path,
       if bool_decide (path = "infracost.yml")
       then inl {| ConfigFileSpec.Projects := [Some projectA; Some projectB] |}
       else inr (errorString "open: no such file or directory") |}.

Definition envTerraform : envconfig.Env :=
  {[ "INFRACOST_TERRAFORM_BINARY" := "terraform_0.13";
     "INFRACOST_LOG_LEVEL" := "debug";
     "INFRACOST_NO_COLOR" := "true" ]}.

Definition envBogusLevel : envconfig.Env :=
  {[ "INFRACOST_LOG_LEVEL" := "bogus" ]}.

Definition quietLogger : logrus.Logger :=
  {| logrus.Formatter_ := logrus.defaultFormatter; logrus.Out := logrus.Discard;
     logrus.Level_ := logrus.DebugLevel |}.

(** The verb q on a string that has no character to escape. *)
Definition plainQuote : Fmt :=
  {| Quote := λ s, String "034" (s ++ String "034" EmptyString) |}.

(** A subcommand that prints one line and returns nil. *)
Definition bodyOk (cfg : Config.t) (g : Globals) : Run :=
  {| cfg_after := cfg; spinner_after := false;
     output := ["Project: examples/a"]; outcome := Returned None |}.

(** A subcommand that fails with a labeled event error while its spinner
    is active. *)
Definition bodyNoKey (cfg : Config.t) (g : Globals) : Run :=
  {| cfg_after := cfg; spinner_after := true; output := [];
     outcome :=
       Returned (Some (eventsError "missing-api-key"
                         (errorString "No INFRACOST_API_KEY environment variable is set."))) |}.

Definition flagsNoColor : pflag.FlagSet :=
  {[ "no-color" := {| pflag.Value_ := pflag.boolValue true; pflag.Changed_ := true |};
     "log-level" := {| pflag.Value_ := pflag.stringValue ""; pflag.Changed_ := false |} ]}.

Definition newer : update.Info :=
  {| update.LatestVersion := "v0.8.1"; update.Cmd := "brew upgrade infracost" |}.

(** INFRACOST_LOG_LEVEL=bogus and a subcommand that succeeds. *)
Definition invocationBogusLevel : Inputs :=
  {| world := sampleWorld envBogusLevel; noColor := false;
     args := Selected flagsNoColor bodyOk; answer := update.Latest None |}.

(** A valid environment, a subcommand that succeeds, a newer version. *)
Definition invocationOk : Inputs :=
  {| world := sampleWorld envTerraform; noColor := false;
     args := Selected flagsNoColor bodyOk; answer := update.Latest (Some newer) |}.

(** A valid environment and a subcommand that reports a missing key. *)
Definition invocationNoKey : Inputs :=
  {| world := sampleWorld envTerraform; noColor := false;
     args := Selected flagsNoColor bodyNoKey; answer := update.Latest None |}.

(** The same with an update check that fails. *)
Definition invocationCheckFails : Inputs :=
  with_answer (update.Failure (errorString "dial tcp: i/o timeout")) invocationNoKey.

(** The variables of a dotenv file that exists and parses; none
    otherwise. *)
Definition fileVars (file : option (gmap string string + error))
    : gmap string string :=
  match file with
  | Some (inl vars) => vars
  | _ => ∅
  end.

(** The projects of a list that are not nil. *)
Definition allSome (ps : list (option Project.t)) : Prop :=
  Forall (λ p, p ≠ None) ps.

(** Two projects agree outside the fields that [field] tells apart from
    the environment: the fields tagged [ignored]. *)
Definition sameIgnored (p q : Project.t) : Prop :=
  Project.Path q = Project.Path p
  ∧ Project.TerraformPlanFlags q = Project.TerraformPlanFlags p
  ∧ Project.UsageFile q = Project.UsageFile p
  ∧ Project.TerraformUseState q = Project.TerraformUseState p.

(** A world whose state file is corrupt. *)
Definition worldBadState : World :=
  {| Environ := envTerraform;
     stateFile := inr (errorString "invalid character in state file");
     credentialsFile := inl Credentials.zero;
     LoadConfigFile := λ _, inr (errorString "open: no such file or directory") |}.

(** A subcommand that panics while its spinner is active. *)
Definition bodyPanics (cfg : Config.t) (g : Globals) : Run :=
  {| cfg_after := cfg; spinner_after := true; output := ["Detecting"];
     outcome := Panicked (Some "runtime error: index out of range")
                         "goroutine 1 [running]: main.main()" |}.

(** A subcommand that calls [panic(nil)] while its spinner is active. *)
Definition bodyNilPanic (cfg : Config.t) (g : Globals) : Run :=
  {| cfg_after := cfg; spinner_after := true; output := ["Detecting"];
     outcome := Panicked None "goroutine 1 [running]: main.main()" |}.

(** A subcommand that returns an error whose message is empty. *)
Definition bodyEmptyError (cfg : Config.t) (g : Globals) : Run :=
  {| cfg_after := cfg; spinner_after := false; output := [];
     outcome := Returned (Some (errorString "")) |}.

Definition flagsBadLevel : pflag.FlagSet :=
  {[ "log-level" := {| pflag.Value_ := pflag.stringValue "loud"; pflag.Changed_ := true |};
     "pricing-api-endpoint" :=
       {| pflag.Value_ := pflag.stringValue "http://localhost:4000";
          pflag.Changed_ := true |} ]}.

Definition flagsAll : pflag.FlagSet :=
  {[ "no-color" := {| pflag.Value_ := pflag.boolValue true; pflag.Changed_ := true |};
     "log-level" := {| pflag.Value_ := pflag.stringValue "warn"; pflag.Changed_ := true |};
     "pricing-api-endpoint" :=
       {| pflag.Value_ := pflag.stringValue "http://localhost:4000";
          pflag.Changed_ := true |};
     "usage-file" := {| pflag.Value_ := pflag.stringValue ""; pflag.Changed_ := false |} ]}.

Definition invocationPanics : Inputs :=
  {| world := sampleWorld envTerraform; noColor := false;
     args := Selected flagsNoColor bodyPanics; answer := update.Latest None |}.

Definition invocationNilPanic : Inputs :=
  {| world := sampleWorld envTerraform; noColor := false;
     args := Selected flagsNoColor bodyNilPanic; answer := update.Latest None |}.

(** INFRACOST_LOG_LEVEL=bogus and a subcommand that panics. *)
Definition invocationBogusPanics : Inputs :=
  {| world := sampleWorld envBogusLevel; noColor := false;
     args := Selected flagsNoColor bodyPanics; answer := update.Latest None |}.

Definition invocationEmptyError : Inputs :=
  {| world := sampleWorld envTerraform; noColor := false;
     args := Selected flagsNoColor bodyEmptyError; answer := update.Latest None |}.

Definition invocationBadFlag : Inputs :=
  {| world := sampleWorld envTerraform; noColor := false;
     args := Selected flagsBadLevel bodyOk; answer := update.Latest (Some newer) |}.

Definition invocationBadState : Inputs :=
  {| world := worldBadState; noColor := false;
     args := Selected flagsNoColor bodyOk; answer := update.Latest None |}.

Definition sampleDotEnv : DotEnvFiles :=
  {| envLocal := Some (inl {[ "INFRACOST_API_KEY" := "ico-local";
                              "INFRACOST_LOG_LEVEL" := "info" ]});
     dotEnv := Some (inl {[ "INFRACOST_API_KEY" := "ico-shared";
                            "INFRACOST_TERRAFORM_WORKSPACE" := "staging" ]}) |}.

Definition brokenDotEnv : DotEnvFiles :=
  {| envLocal := Some (inl {[ "INFRACOST_API_KEY" := "ico-local" ]});
     dotEnv := Some (inr (errorString "unexpected character in variable name")) |}.

(** What binding the environment keeps of a project: a nil project stays
    nil; otherwise the fields tagged [ignored] and every field whose
    variable is not set are as before. *)
Definition keptProject (env : envconfig.Env) (p p' : option Project.t) : Prop :=
  match p, p' with
  | Some q, Some q' =>
      sameIgnored q q'
      ∧ ∀ key field, (key, field) ∈ projectVars → env !! key = None →
                     field q' = field q
  | None, None => True
  | _, _ => False
  end.

(** Another schedule: the goroutine runs whenever it can, the main task
    when the goroutine waits for it or is over. *)
Definition nextCheckerFirst (s : Sys) : option Sys :=
  match exit_status (main_task s) with
  | Some _ => None
  | None =>
      match checker s, closed s with
      | Some (Emit e k), b =>
          Some {| main_task := main_task s; checker := Some k; closed := b;
                  trace := trace s ++ [Did CheckerTask e] |}
      | Some (Close k), false =>
          Some {| main_task := main_task s; checker := Some k; closed := true;
                  trace := trace s |}
      | _, _ => next s
      end
  end.

Fixpoint runCheckerFirst (fuel : nat) (s : Sys) : nat * Sys :=
  match fuel with
  | O => (O, s)
  | S fuel =>
      match nextCheckerFirst s with
      | Some s' => let '(n, s'') := runCheckerFirst fuel s' in (S n, s'')
      | None => (O, s)
      end
  end.

Local Close Scope string_scope.

(** ** Runs of a process of that shape *)

Lemma emits_prefix p : p = emits (prefix_events p) (after_prefix p).
Proof. induction p; simpl; try reflexivity. unfold emits in *. simpl. congruence. Qed.

Lemma prefix_events_emits l p : prefix_events (emits l p) = l ++ prefix_events p.
Proof. induction l as [|e l IH]; simpl; [reflexivity|]. unfold emits in *. simpl. congruence. Qed.

Lemma after_prefix_emits l p : after_prefix (emits l p) = after_prefix p.
Proof. induction l as [|e l IH]; simpl; [reflexivity|]. exact IH. Qed.

Lemma proj_app tid t1 t2 : proj tid (t1 ++ t2) = proj tid t1 ++ proj tid t2.
Proof. unfold proj. apply omap_app. Qed.

Lemma channel_ops_app t1 t2 : channel_ops (t1 ++ t2) = channel_ops t1 ++ channel_ops t2.
Proof. unfold channel_ops. apply omap_app. Qed.

Lemma proj_map_main l : proj MainTask (map (Did MainTask) l) = l.
Proof. induction l; simpl; [reflexivity|]. unfold proj in *. simpl. congruence. Qed.

Lemma channel_ops_map l tid : channel_ops (map (Did tid) l) = [].
Proof. induction l; simpl; [reflexivity|]. exact IHl. Qed.

Section Runs.
Variables (chk rest : Prog) (v : option update.Info) (k : option update.Info → Prog).
Hypothesis chk_sends : after_prefix chk = Send v (Close Ret).
Hypothesis rest_receives : after_prefix rest = Recv k.
Hypothesis k_ends : ∀ u, exit_status (after_prefix (k u)) ≠ None.

Local Abbreviation I := (Inv chk rest v k).

Lemma Inv_before_intro m c b1 b2 c1 c2 t :
  m = emits b2 (Recv k) →
  c = emits c2 (Send v (Close Ret)) →
  prefix_events rest = b1 ++ b2 →
  prefix_events chk = c1 ++ c2 →
  proj MainTask t = b1 →
  proj CheckerTask t = c1 →
  channel_ops t = [] →
  I {| main_task := m; checker := Some c; closed := false; trace := t |}.
Proof. intros -> ->. apply Inv_before. Qed.

Lemma Inv_after_intro m t' p1 p2 t c b :
  m = emits p2 (after_prefix (k v)) →
  t' = t ++ Handoff v :: map (Did MainTask) p1 →
  prefix_events (k v) = p1 ++ p2 →
  proj MainTask t = prefix_events rest →
  proj CheckerTask t = prefix_events chk →
  channel_ops t = [] →
  (c = Close Ret ∧ b = false ∨ c = Ret ∧ b = true) →
  I {| main_task := m; checker := Some c; closed := b; trace := t' |}.
Proof. intros -> ->. apply Inv_after. Qed.

Local Ltac trace_simpl :=
  rewrite ?proj_app, ?channel_ops_app; unfold proj, channel_ops in *; simpl;
  rewrite <- ?app_assoc, ?app_nil_r; simpl; try congruence.

Lemma Inv_step s s' : I s → step s s' → I s' ∧ (sys_size v s' < sys_size v s)%nat.
Proof.
  intros HI Hs. destruct HI as [|b1 b2 c1 c2 t Hb Hc Hm Hk Hh|p1 p2 t c b Hp Hm Hk Hh Hc].
  - inversion Hs; subst. split.
    + apply Inv_before_intro with (b1 := []) (c1 := []) (b2 := prefix_events rest)
        (c2 := prefix_events chk); try reflexivity.
      * rewrite <- rest_receives. apply emits_prefix.
      * rewrite <- chk_sends. apply emits_prefix.
    + unfold sys_size; simpl. lia.
  - destruct b2 as [|e b2]; destruct c2 as [|e' c2]; inversion Hs; subst; simpl in *.
    all: try discriminate.
    all: unfold sys_size; simpl; split; try lia.
    + eapply Inv_after_intro with (p1 := []) (t := t); eauto.
      * apply emits_prefix.
      * rewrite app_nil_r in Hb. congruence.
      * rewrite app_nil_r in Hc. congruence.
    + apply Inv_before_intro with (b1 := proj MainTask t) (b2 := [])
        (c1 := proj CheckerTask t ++ [e']) (c2 := c2); auto; trace_simpl.
    + apply Inv_before_intro with (b1 := proj MainTask t ++ [e]) (b2 := b2)
        (c1 := proj CheckerTask t) (c2 := []); auto; trace_simpl.
    + apply Inv_before_intro with (b1 := proj MainTask t ++ [e]) (b2 := b2)
        (c1 := proj CheckerTask t) (c2 := e' :: c2); auto; trace_simpl.
    + apply Inv_before_intro with (b1 := proj MainTask t) (b2 := e :: b2)
        (c1 := proj CheckerTask t ++ [e']) (c2 := c2); auto; trace_simpl.
  - pose proof (k_ends v) as Hfin.
    destruct p2 as [|e p2].
    { simpl in Hs. destruct (after_prefix (k v)); simpl in Hfin; try congruence;
        inversion Hs; subst; simpl in *; congruence. }
    destruct Hc as [[-> ->]|[-> ->]];
      inversion Hs; subst; simpl in *; try congruence.
    all: unfold sys_size; simpl; split; try lia.
    + apply Inv_after_intro with (p1 := p1 ++ [e]) (p2 := p2) (t := t); auto.
      * rewrite map_app, <- app_assoc. reflexivity.
      * rewrite <- app_assoc. exact Hp.
    + apply Inv_after_intro with (p1 := p1) (p2 := e :: p2) (t := t); auto.
    + apply Inv_after_intro with (p1 := p1 ++ [e]) (p2 := p2) (t := t); auto.
      * rewrite map_app, <- app_assoc. reflexivity.
      * rewrite <- app_assoc. exact Hp.
Qed.

Lemma Inv_steps n s :
  steps (start (Go chk rest)) n s →
  I s ∧ (n + sys_size v s ≤ sys_size v (start (Go chk rest)))%nat.
Proof.
  induction 1 as [|n s' s'' _ IH Hs].
  - split; [apply Inv_start | lia].
  - destruct IH as [HI Hn].
    destruct (Inv_step _ _ HI Hs) as [HI' Hlt]. split; [exact HI' | lia].
Qed.

Lemma Inv_progress s : I s → running s → ∃ s', step s s'.
Proof.
  intros HI Hrun.
  destruct HI as [|b1 b2 c1 c2 t Hb Hc Hm Hk Hh|p1 p2 t c b Hp Hm Hk Hh Hc].
  - eexists. apply step_go.
  - destruct b2 as [|e b2]; [destruct c2 as [|e' c2]|]; simpl.
    + eexists. apply step_handoff.
    + eexists. apply step_checker_emit. reflexivity.
    + eexists. apply step_main_emit.
  - destruct p2 as [|e p2]; simpl in *.
    + destruct (k_ends v). exact Hrun.
    + eexists. apply step_main_emit.
Qed.

Lemma Inv_exit s code :
  I s → exit_status (main_task s) = Some code →
  ∃ t, trace s = t ++ Handoff v :: map (Did MainTask) (prefix_events (k v))
     ∧ proj MainTask t = prefix_events rest
     ∧ proj CheckerTask t = prefix_events chk
     ∧ channel_ops t = []
     ∧ exit_status (after_prefix (k v)) = Some code
     ∧ (checker s = Some (Close Ret) ∧ closed s = false
        ∨ checker s = Some Ret ∧ closed s = true).
Proof.
  intros HI Hex.
  destruct HI as [|b1 b2 c1 c2 t Hb Hc Hm Hk Hh|p1 p2 t c b Hp Hm Hk Hh Hc];
    simpl in *.
  - discriminate.
  - destruct b2; discriminate.
  - destruct p2 as [|e p2]; [|discriminate]. simpl in Hex.
    rewrite app_nil_r in Hp. exists t. rewrite Hp.
    repeat split; auto. destruct Hc as [[-> ->]|[-> ->]]; auto.
Qed.

Lemma Inv_completes m : ∀ n s,
  (sys_size v s ≤ m)%nat →
  steps (start (Go chk rest)) n s →
  ∃ n' s', steps (start (Go chk rest)) n' s' ∧ exit_status (main_task s') ≠ None.
Proof.
  induction m as [|m IH]; intros n s Hm Hsteps.
  - destruct (exit_status (main_task s)) eqn:E.
    + exists n, s. split; [exact Hsteps | congruence].
    + destruct (Inv_steps _ _ Hsteps) as [HI _].
      destruct (Inv_progress _ HI E) as [s' Hs].
      destruct (Inv_step _ _ HI Hs) as [_ Hlt]. lia.
  - destruct (exit_status (main_task s)) eqn:E.
    + exists n, s. split; [exact Hsteps | congruence].
    + destruct (Inv_steps _ _ Hsteps) as [HI _].
      destruct (Inv_progress _ HI E) as [s' Hs].
      destruct (Inv_step _ _ HI Hs) as [_ Hlt].
      apply (IH (S n) s'); [lia|]. eapply steps_S; eauto.
Qed.

End Runs.

(** ** Runs of [main] *)

Lemma events_of_app t1 t2 : events_of (t1 ++ t2) = events_of t1 ++ events_of t2.
Proof. unfold events_of. apply omap_app. Qed.

Lemma events_of_map tid l : events_of (map (Did tid) l) = l.
Proof. induction l; simpl; [reflexivity|]. unfold events_of in *. simpl. congruence. Qed.

(** An event of a trace is an event of one of the two tasks. *)
Lemma events_of_proj t e :
  e ∈ events_of t → e ∈ proj MainTask t ∨ e ∈ proj CheckerTask t.
Proof.
  unfold events_of, proj. induction t as [|o t IH]; simpl.
  - intros Hin. inversion Hin.
  - destruct o as [[] e'|u|]; simpl; rewrite ?elem_of_cons; tauto.
Qed.

Lemma proj_events_of tid t e : e ∈ proj tid t → e ∈ events_of t.
Proof.
  unfold events_of, proj. induction t as [|o t IH]; simpl.
  - auto.
  - destruct o as [[] e'|u|], tid; simpl; rewrite ?elem_of_cons; tauto.
Qed.

Section MainRuns.
Context `{Fmt}.

Lemma updateCheck_sends a :
  after_prefix (updateCheck a) = Send (update.updateInfo a) (Close Ret).
Proof. unfold updateCheck, seq, skip. destruct a as [u [e|]]; reflexivity. Qed.

Lemma updateCheck_events a :
  prefix_events (updateCheck a)
  = CheckForUpdate ::
    match update.err a with
    | Some err => [Debugf ("error checking for update: " ++ Error err)%string]
    | None => []
    end.
Proof. unfold updateCheck, seq, skip. destruct a as [u [e|]]; reflexivity. Qed.

Lemma deferred_receives cfg sp a u :
  after_prefix (deferred cfg sp a u) = Recv (afterDrain a u).
Proof.
  unfold deferred, handleAppErr, handleUnexpectedErr, handleUpdateMessage,
    when, seq, skip.
  destruct a as [err|], u as [[v st]|], sp; simpl;
    repeat case_bool_decide; reflexivity.
Qed.

Lemma afterDrain_events a u x : prefix_events (afterDrain a u x) = notice x.
Proof. unfold afterDrain. destruct x; simpl; case_bool_decide; reflexivity. Qed.

Lemma afterDrain_exit a u x :
  exit_status (after_prefix (afterDrain a u x))
  = Some (if bool_decide (a ≠ None ∨ u ≠ None) then 1 else 0).
Proof. unfold afterDrain. destruct x; simpl; case_bool_decide; reflexivity. Qed.

Lemma afterDrain_ends a u x : exit_status (after_prefix (afterDrain a u x)) ≠ None.
Proof. rewrite afterDrain_exit. discriminate. Qed.

Lemma unwind_deferred appErr r :
  unwind appErr r
  = deferred (cfg_after r) (spinner_after r)
      (final_appErr appErr (outcome r)) (recovered (outcome r)).
Proof. unfold unwind. destruct (outcome r) as [err|[v|] stack]; reflexivity. Qed.

Lemma executeCommand_receives i cfg l appErr :
  after_prefix (executeCommand i cfg l appErr)
  = Recv (afterDrain (final_appErr appErr (outcome (command i cfg l).2))
                     (recovered (outcome (command i cfg l).2))).
Proof.
  unfold executeCommand, command. destruct (Execute _ _ _) as [evs r]. simpl.
  rewrite after_prefix_emits, unwind_deferred. apply deferred_receives.
Qed.

Lemma executeCommand_events i cfg l appErr :
  prefix_events (executeCommand i cfg l appErr)
  = (command i cfg l).1
    ++ prefix_events
         (deferred (cfg_after (command i cfg l).2) (spinner_after (command i cfg l).2)
            (final_appErr appErr (outcome (command i cfg l).2))
            (recovered (outcome (command i cfg l).2))).
Proof.
  unfold executeCommand, command. destruct (Execute _ _ _) as [evs r]. simpl.
  rewrite prefix_events_emits, unwind_deferred. reflexivity.
Qed.

(** Every run of [main] that has ended, after a start-up that returned. *)
Lemma main_exit i cfg l appErr n s code :
  startup i = (cfg, l, Return appErr) →
  steps (start (main i)) n s →
  exit_status (main_task s) = Some code →
  ∃ t,
    trace s = t ++ Handoff (update.updateInfo (answer i))
                :: map (Did MainTask) (notice (update.updateInfo (answer i)))
    ∧ proj MainTask t
      = (command i cfg l).1
        ++ prefix_events
             (deferred (cfg_after (command i cfg l).2)
                (spinner_after (command i cfg l).2)
                (final_appErr appErr (outcome (command i cfg l).2))
                (recovered (outcome (command i cfg l).2)))
    ∧ proj CheckerTask t = prefix_events (updateCheck (answer i))
    ∧ channel_ops t = []
    ∧ code = (if bool_decide (final_appErr appErr (outcome (command i cfg l).2) ≠ None
                              ∨ recovered (outcome (command i cfg l).2) ≠ None)
              then 1 else 0)
    ∧ (checker s = Some (Close Ret) ∧ closed s = false
       ∨ checker s = Some Ret ∧ closed s = true).
Proof.
  intros Hstart Hsteps Hexit. unfold main in Hsteps. unfold startup in Hstart.
  rewrite Hstart in Hsteps. unfold startUpdateCheck in Hsteps.
  pose proof (updateCheck_sends (answer i)) as Hc.
  pose proof (executeCommand_receives i cfg l appErr) as Hr.
  destruct (Inv_steps _ _ _ _ Hc Hr (afterDrain_ends _ _) _ _ Hsteps) as [HI _].
  destruct (Inv_exit _ _ _ _ _ _ HI Hexit)
    as (t & Ht & Hm & Hk & Hh & Hcode & Hchk).
  exists t. rewrite afterDrain_events in Ht. rewrite afterDrain_exit in Hcode.
  rewrite executeCommand_events in Hm.
  repeat split; auto. congruence.
Qed.

(** No run of [main] is longer than its programs, and none gets stuck. *)
Lemma main_bound i cfg l appErr n s :
  startup i = (cfg, l, Return appErr) →
  steps (start (main i)) n s →
  (n ≤ psize (update.updateInfo (answer i)) (main i))%nat
  ∧ (running s → ∃ s', step s s').
Proof.
  intros Hstart Hsteps. unfold main in *. unfold startup in Hstart.
  rewrite Hstart in *. unfold startUpdateCheck in *.
  pose proof (updateCheck_sends (answer i)) as Hc.
  pose proof (executeCommand_receives i cfg l appErr) as Hr.
  destruct (Inv_steps _ _ _ _ Hc Hr (afterDrain_ends _ _) _ _ Hsteps) as [HI Hn].
  split.
  - unfold sys_size in Hn. simpl in *. lia.
  - intros Hrun. eapply Inv_progress; eauto. apply afterDrain_ends.
Qed.

Lemma main_completes i cfg l appErr :
  startup i = (cfg, l, Return appErr) →
  ∃ n s, steps (start (main i)) n s ∧ exit_status (main_task s) ≠ None.
Proof.
  intros Hstart. unfold main. unfold startup in Hstart. rewrite Hstart.
  unfold startUpdateCheck.
  pose proof (updateCheck_sends (answer i)) as Hc.
  pose proof (executeCommand_receives i cfg l appErr) as Hr.
  eapply (Inv_completes _ _ _ _ Hc Hr (afterDrain_ends _ _) _ 0%nat).
  - reflexivity.
  - apply steps_O.
Qed.

End MainRuns.

(** A start-up that ends the process: the runs of [main] are the runs of
    the one log line and the exit, or of the exit alone. *)
Lemma fatal_runs (e : Event) (c : Z) (n : nat) (s : Sys) :
  steps (start (Emit e (Exit c))) n s →
  s = start (Emit e (Exit c))
  ∨ s = {| main_task := Exit c; checker := None; closed := false;
           trace := [Did MainTask e] |}.
Proof.
  induction 1 as [|n s' s'' _ IH Hs]; [left; reflexivity|].
  destruct IH as [->| ->]; inversion Hs; subst; simpl in *;
    try discriminate; right; reflexivity.
Qed.

Lemma exit_runs (c : Z) (n : nat) (s : Sys) :
  steps (start (Exit c)) n s → s = start (Exit c).
Proof.
  induction 1 as [|n s' s'' _ IH Hs]; [reflexivity|].
  subst s'. inversion Hs; subst; simpl in *; discriminate.
Qed.

(** ** The environment layer *)

Local Open Scope string_scope.

Lemma bindProject_bound env p : boundStrings projectVars env (envconfig.bindProject env p).
Proof.
  intros key field value Hin Hlk. unfold projectVars in Hin.
  unfold envconfig.bindProject, envconfig.bindString.
  repeat (apply elem_of_cons in Hin as [Hin|Hin]);
    try (apply elem_of_nil in Hin; contradiction);
    inversion Hin; subst; rewrite ?Hlk;
    repeat match goal with |- context [match ?m !! ?k with _ => _ end] =>
             destruct (m !! k) end; reflexivity.
Qed.

Lemma allocState_fields c :
  (∀ key field, (key, field) ∈ configStringVars →
     field (envconfig.allocState c) = field c)
  ∧ (∀ key field, (key, field) ∈ configBoolVars →
       field (envconfig.allocState c) = field c)
  ∧ Config.Version (envconfig.allocState c) = Config.Version c
  ∧ Config.Format (envconfig.allocState c) = Config.Format c
  ∧ Config.ShowSkipped (envconfig.allocState c) = Config.ShowSkipped c
  ∧ Config.SyncUsageFile (envconfig.allocState c) = Config.SyncUsageFile c
  ∧ Config.Fields (envconfig.allocState c) = Config.Fields c
  ∧ Config.Projects (envconfig.allocState c) = Config.Projects c
  ∧ Config.Environment_ (envconfig.allocState c) = Config.Environment_ c
  ∧ Config.Credentials_ (envconfig.allocState c) = Config.Credentials_ c.
Proof.
  unfold envconfig.allocState.
  destruct (Config.State_ c); repeat split; try reflexivity;
    intros key field Hin;
    first [unfold configStringVars in Hin | unfold configBoolVars in Hin];
    repeat (apply elem_of_cons in Hin as [Hin|Hin]);
    try (apply elem_of_nil in Hin; contradiction);
    inversion Hin; reflexivity.
Qed.

Lemma allocState_State c :
  Config.State_ (envconfig.allocState c)
  = match Config.State_ c with
    | None => Some State.zero
    | Some st => Some st
    end.
Proof. unfold envconfig.allocState. destruct (Config.State_ c) eqn:E; [exact E | reflexivity]. Qed.

Lemma allocState_fixed c :
  Config.State_ c ≠ None → envconfig.allocState c = c.
Proof. unfold envconfig.allocState. destruct (Config.State_ c); congruence. Qed.

Lemma processFields_ok env c c1 :
  envconfig.processFields env c = (c1, None) →
  boundStrings configStringVars env c1
  ∧ boundBools configBoolVars env c1
  ∧ Config.Projects c1 = Config.Projects c
  ∧ Config.Environment_ c1 = Config.Environment_ c.
Proof.
  unfold envconfig.processFields, envconfig.bindBool, envconfig.bindString.
  intros Heq.
  destruct (env !! "INFRACOST_NO_COLOR") as [v1|] eqn:E1;
    [destruct (strconv.ParseBool v1) as [b1|] eqn:P1; [|discriminate]|];
  (destruct (env !! "INFRACOST_SKIP_UPDATE_CHECK") as [v2|] eqn:E2;
    [destruct (strconv.ParseBool v2) as [b2|] eqn:P2; [|discriminate]|]);
  inversion Heq; subst; clear Heq.
  all: split; [|split; [|split]].
  all: try (intros key field value Hin Hlk;
    first [unfold configStringVars in Hin | unfold configBoolVars in Hin];
    repeat (apply elem_of_cons in Hin as [Hin|Hin]);
    try (apply elem_of_nil in Hin; contradiction);
    inversion Hin; subst; rewrite ?Hlk;
    repeat match goal with |- context [match ?m !! ?k with _ => _ end] =>
             destruct (m !! k) end; simpl; congruence).
  all: repeat match goal with |- context [match ?m !! ?k with _ => _ end] =>
             destruct (m !! k) end; reflexivity.
Qed.

Lemma Process_Config_ok env c c1 :
  envconfig.Process_Config env c = (c1, None) →
  boundStrings configStringVars env c1
  ∧ boundBools configBoolVars env c1
  ∧ Config.Projects c1 = Config.Projects c
  ∧ Config.Environment_ c1 = Config.Environment_ c.
Proof.
  unfold envconfig.Process_Config. intros Heq.
  destruct (processFields_ok _ _ _ Heq) as (Hs & Hb & Hp & He).
  destruct (allocState_fields c) as (_ & _ & _ & _ & _ & _ & _ & Hp' & He' & _).
  repeat split; [exact Hs | exact Hb | congruence | congruence].
Qed.

Lemma processProjects_ok env ps ps' :
  processProjects env ps = (ps', None) →
  ps' = map (fmap (envconfig.bindProject env)) ps
  ∧ Forall (λ p, ∃ q, p = Some q ∧ boundStrings projectVars env q) ps'.
Proof.
  revert ps'. induction ps as [|p ps IH]; intros ps' Heq; simpl in Heq.
  - inversion Heq. split; constructor.
  - destruct p as [p|]; simpl in Heq; [|discriminate].
    destruct (processProjects env ps) as [rest err]. inversion Heq; subst.
    destruct (IH rest eq_refl) as [-> Hall]. split; [reflexivity|].
    constructor; [|exact Hall]. eexists. split; [reflexivity|].
    apply bindProject_bound.
Qed.

Lemma processProjects_err env ps project err :
  project ∈ ps →
  (envconfig.Process_Project env project).2 = Some err →
  (processProjects env ps).2 = Some err.
Proof.
  intros Hin Herr. destruct project as [q|]; simpl in Herr; [discriminate|].
  induction ps as [|p ps IH]; [inversion Hin|].
  simpl. destruct p as [p|]; simpl; [|exact Herr].
  apply elem_of_cons in Hin as [Hin|Hin]; [discriminate|].
  destruct (processProjects env ps) as [rest e]. simpl in *. auto.
Qed.

Lemma loadEnvVars_ok env c c' :
  loadEnvVars env c = (c', None) →
  Config.Projects c' = map (fmap (envconfig.bindProject env)) (Config.Projects c)
  ∧ Forall (λ p, ∃ q, p = Some q ∧ boundStrings projectVars env q) (Config.Projects c')
  ∧ boundStrings configStringVars env c'
  ∧ boundBools configBoolVars env c'
  ∧ Config.Environment_ c' = Config.Environment_ c.
Proof.
  unfold loadEnvVars. intros Heq.
  destruct (envconfig.Process_Config env c) as [c1 [e|]] eqn:E1; [discriminate|].
  destruct (Process_Config_ok _ _ _ E1) as (Hs & Hb & Hp & He).
  destruct (processProjects env (Config.Projects c1)) as [ps e] eqn:E2.
  inversion Heq; subst. destruct (processProjects_ok _ _ _ E2) as [-> Hall].
  simpl. rewrite Hp. split; [reflexivity|]. split; [|split; [|split; [|exact He]]].
  - rewrite <- Hp. exact Hall.
  - intros key field value Hin Hlk. specialize (Hs key field value Hin Hlk).
    unfold configStringVars in Hin.
    repeat (apply elem_of_cons in Hin as [Hin|Hin]);
      try (apply elem_of_nil in Hin; contradiction); inversion Hin; subst;
      simpl; first [assumption | reflexivity].
  - intros key field value Hin Hlk. specialize (Hb key field value Hin Hlk).
    unfold configBoolVars in Hin.
    repeat (apply elem_of_cons in Hin as [Hin|Hin]);
      try (apply elem_of_nil in Hin; contradiction); inversion Hin; subst;
      simpl; first [assumption | reflexivity].
Qed.

Lemma LoadFromEnv_returns_nil w c l c' l' :
  LoadFromEnv w c l = (c', l', Return None) →
  ∃ c1 st cr,
    loadEnvVars (Environ w) c = (c1, None)
    ∧ ConfigureLogger c1 l = (l', None)
    ∧ stateFile w = inl st
    ∧ credentialsFile w = inl cr
    ∧ c' = Config.set_Credentials cr
             (Config.set_Environment
                (Environment.set_InstallID (State.InstallID st) (Config.Environment_ c1))
                (Config.set_State (Some st) c1)).
Proof.
  unfold LoadFromEnv, loadState, loadCredentials. intros Heq.
  destruct (loadEnvVars (Environ w) c) as [c1 [e|]]; [discriminate|].
  destruct (ConfigureLogger c1 l) as [l1 [e|]] eqn:El; [discriminate|].
  destruct (stateFile w) as [st|e]; [|discriminate]. simpl in Heq.
  destruct (credentialsFile w) as [cr|e]; [|discriminate].
  inversion Heq; subst. exists c1, st, cr. repeat split; auto.
Qed.

(** ** The logger *)

Lemma ParseLevel_names lvl :
  match logrus.ParseLevel lvl with
  | inl level => (strings.ToLower lvl, level) ∈ levelNames
  | inr err => err = levelError lvl ∧ ¬ recognized lvl
  end.
Proof.
  unfold logrus.ParseLevel, recognized, levelNames.
  repeat case_bool_decide;
    try match goal with Heq : strings.ToLower lvl = _ |- _ => rewrite Heq end;
    try (repeat first [apply list_elem_of_here | apply list_elem_of_further]; fail).
  split; [reflexivity|]. intros [level Hin].
  repeat (apply elem_of_cons in Hin as [Hin|Hin]);
    try (apply elem_of_nil in Hin; contradiction); inversion Hin; congruence.
Qed.

Lemma ParseLevel_recognized lvl level :
  (strings.ToLower lvl, level) ∈ levelNames → logrus.ParseLevel lvl = inl level.
Proof.
  unfold logrus.ParseLevel, levelNames. intros Hin.
  repeat (apply elem_of_cons in Hin as [Hin|Hin]);
    try (apply elem_of_nil in Hin; contradiction);
    inversion Hin as [[Hname Hlevel]]; rewrite Hname; reflexivity.
Qed.

(** C7: [ConfigureLogger] returns an error exactly when the log level is
    not empty and is not a recognized level name.  With the empty level it
    returns nil and the logger discards its output; with a recognized level
    it returns nil and the logger writes to the diagnostic stream at that
    level. *)
Theorem ConfigureLogger_result (c : Config.t) (l : logrus.Logger) :
  ((ConfigureLogger c l).2 ≠ None
     ↔ Config.LogLevel c ≠ "" ∧ ¬ recognized (Config.LogLevel c))
  ∧ (Config.LogLevel c = "" →
       (ConfigureLogger c l).2 = None
       ∧ logrus.Out (ConfigureLogger c l).1 = logrus.Discard)
  ∧ (∀ level, (strings.ToLower (Config.LogLevel c), level) ∈ levelNames →
       (ConfigureLogger c l).2 = None
       ∧ logrus.Out (ConfigureLogger c l).1 = logrus.Stderr
       ∧ logrus.Level_ (ConfigureLogger c l).1 = level).
Proof.
  unfold ConfigureLogger. split; [|split].
  - case_bool_decide as Hempty; simpl.
    + split; [congruence | tauto].
    + pose proof (ParseLevel_names (Config.LogLevel c)) as Hn.
      destruct (logrus.ParseLevel (Config.LogLevel c)) as [level|err]; simpl.
      * split; [congruence|]. intros [_ Hnot]. destruct Hnot. exists level. exact Hn.
      * split; [|discriminate]. intros _. split; [exact Hempty | apply Hn].
  - intros Hempty. rewrite bool_decide_eq_true_2 by exact Hempty. split; reflexivity.
  - intros level Hin. pose proof (ParseLevel_recognized _ _ Hin) as Hp.
    case_bool_decide as Hempty.
    + rewrite Hempty in Hp. discriminate.
    + rewrite Hp. repeat split.
Qed.

Lemma ConfigureLogger_result_witness :
  (ConfigureLogger (Config.set_LogLevel "Debug" DefaultConfig) quietLogger).2 = None
  ∧ logrus.Out (ConfigureLogger (Config.set_LogLevel "Debug" DefaultConfig) quietLogger).1
    = logrus.Stderr
  ∧ logrus.Level_ (ConfigureLogger (Config.set_LogLevel "Debug" DefaultConfig) quietLogger).1
    = logrus.DebugLevel.
Proof.
  apply (ConfigureLogger_result (Config.set_LogLevel "Debug" DefaultConfig) quietLogger).
  vm_compute. do 6 apply list_elem_of_further. apply list_elem_of_here.
Defined.

(** C10: with a log level that is not empty and does not parse,
    [ConfigureLogger] returns the error after it has replaced the formatter
    and pointed the output at the diagnostic stream; only the level is as
    before. *)
Theorem ConfigureLogger_error_path (c : Config.t) (l : logrus.Logger) (err : error) :
  Config.LogLevel c ≠ "" →
  logrus.ParseLevel (Config.LogLevel c) = inr err →
  ConfigureLogger c l
  = ({| logrus.Formatter_ := infracostFormatter; logrus.Out := logrus.Stderr;
        logrus.Level_ := logrus.Level_ l |}, Some err).
Proof.
  intros Hne Hp. unfold ConfigureLogger.
  rewrite bool_decide_eq_false_2 by exact Hne. rewrite Hp. reflexivity.
Qed.

Lemma ConfigureLogger_error_path_witness :
  ConfigureLogger (Config.set_LogLevel "bogus" DefaultConfig) quietLogger
  = ({| logrus.Formatter_ := infracostFormatter; logrus.Out := logrus.Stderr;
        logrus.Level_ := logrus.DebugLevel |}, Some (levelError "bogus")).
Proof.
  apply (ConfigureLogger_error_path (Config.set_LogLevel "bogus" DefaultConfig)
           quietLogger (levelError "bogus")).
  - vm_compute. discriminate.
  - vm_compute. reflexivity.
Defined.

(** ** Binding the environment *)

(** C6: [loadEnvVars] binds the environment on the [Config] and then on
    every project of [Config.Projects], each on its own: when it returns
    nil, every project is the project before bound to the environment, so a
    project variable that is set has its value in the field of every
    project; an error of the binding of the [Config] or of any project is
    the error that [loadEnvVars] returns. *)
Theorem loadEnvVars_binds_every_project (env : envconfig.Env) (c : Config.t) :
  (∀ c', loadEnvVars env c = (c', None) →
     boundStrings configStringVars env c'
     ∧ boundBools configBoolVars env c'
     ∧ Config.Projects c'
       = map (fmap (envconfig.bindProject env)) (Config.Projects c)
     ∧ Forall (λ p, ∃ q, p = Some q ∧ boundStrings projectVars env q)
         (Config.Projects c'))
  ∧ (∀ err, (envconfig.Process_Config env c).2 = Some err →
       (loadEnvVars env c).2 = Some err)
  ∧ (∀ project err,
       (envconfig.Process_Config env c).2 = None →
       project ∈ Config.Projects c →
       (envconfig.Process_Project env project).2 = Some err →
       (loadEnvVars env c).2 = Some err).
Proof.
  split; [|split].
  - intros c' Heq. destruct (loadEnvVars_ok _ _ _ Heq) as (Hp & Hall & Hs & Hb & _).
    auto.
  - intros err Herr. unfold loadEnvVars.
    destruct (envconfig.Process_Config env c) as [c1 [e|]]; simpl in *; congruence.
  - intros project err Hok Hin Herr. unfold loadEnvVars.
    destruct (envconfig.Process_Config env c) as [c1 [e|]] eqn:E1; [discriminate|].
    destruct (Process_Config_ok _ _ _ E1) as (_ & _ & Hp & _).
    pose proof (processProjects_err env (Config.Projects c1) project err) as Hpp.
    rewrite Hp in Hpp. specialize (Hpp Hin Herr). rewrite Hp.
    destruct (processProjects env (Config.Projects c)) as [ps e]. exact Hpp.
Qed.

Lemma loadEnvVars_binds_every_project_witness :
  (loadEnvVars envTerraform
     (Config.set_Projects [Some projectA; None; Some projectB] DefaultConfig)).2
  = Some ErrInvalidSpecification
  ∧ Forall (λ p, ∃ q, p = Some q ∧ boundStrings projectVars envTerraform q)
      (Config.Projects
         (loadEnvVars envTerraform
            (Config.set_Projects [Some projectA; Some projectB] DefaultConfig)).1).
Proof.
  split.
  - apply (loadEnvVars_binds_every_project envTerraform
             (Config.set_Projects [Some projectA; None; Some projectB] DefaultConfig))
      with (project := None).
    + vm_compute. reflexivity.
    + apply list_elem_of_further, list_elem_of_here.
    + reflexivity.
  - apply (loadEnvVars_binds_every_project envTerraform
             (Config.set_Projects [Some projectA; Some projectB] DefaultConfig)).
    vm_compute. reflexivity.
Defined.

(** C5: when [LoadFromConfigFile] succeeds, the projects of the [Config]
    are those of the config file and no others, [HasConfigFile] is true, and
    the environment has been applied after the file: a field whose variable
    is set has the value of the environment, on the [Config] and on every
    project, whatever the file says. *)
Theorem LoadFromConfigFile_precedence (w : World) (path : string)
    (c c' : Config.t) (l l' : logrus.Logger) :
  LoadFromConfigFile w path c l = (c', l', Return None) →
  ∃ cfgFile,
    LoadConfigFile w path = inl cfgFile
    ∧ Config.Projects c'
      = map (fmap (envconfig.bindProject (Environ w)))
          (ConfigFileSpec.Projects cfgFile)
    ∧ Forall (λ p, ∃ q, p = Some q ∧ boundStrings projectVars (Environ w) q)
        (Config.Projects c')
    ∧ Environment.HasConfigFile (Config.Environment_ c') = true
    ∧ boundStrings configStringVars (Environ w) c'
    ∧ boundBools configBoolVars (Environ w) c'.
Proof.
  unfold LoadFromConfigFile. intros Heq.
  destruct (LoadConfigFile w path) as [cfgFile|e]; [|discriminate].
  exists cfgFile. split; [reflexivity|].
  match type of Heq with context [LoadFromEnv w ?c0 l] =>
    destruct (LoadFromEnv w c0 l) as [[c2 l2] r] eqn:E end.
  assert (r = Return None ∧ c2 = c' ∧ l2 = l') as (-> & -> & ->).
  { destruct r as [[e|]| |]; inversion Heq; auto. }
  destruct (LoadFromEnv_returns_nil _ _ _ _ _ E) as (c1 & st & cr & Hl & _ & _ & _ & ->).
  destruct (loadEnvVars_ok _ _ _ Hl) as (Hp & Hall & Hs & Hb & He).
  simpl in *. rewrite He. repeat split; auto.
  - intros key field value Hin Hlk. specialize (Hs key field value Hin Hlk).
    unfold configStringVars in Hin.
    repeat (apply elem_of_cons in Hin as [Hin|Hin]);
      try (apply elem_of_nil in Hin; contradiction); inversion Hin; subst;
      simpl; first [assumption | reflexivity].
  - intros key field value Hin Hlk. specialize (Hb key field value Hin Hlk).
    unfold configBoolVars in Hin.
    repeat (apply elem_of_cons in Hin as [Hin|Hin]);
      try (apply elem_of_nil in Hin; contradiction); inversion Hin; subst;
      simpl; first [assumption | reflexivity].
Qed.

Lemma LoadFromConfigFile_precedence_witness :
  ∃ cfgFile,
    LoadConfigFile (sampleWorld envTerraform) "infracost.yml" = inl cfgFile
    ∧ Config.Projects
        (LoadFromConfigFile (sampleWorld envTerraform) "infracost.yml"
           DefaultConfig logrus.std).1.1
      = map (fmap (envconfig.bindProject envTerraform))
          (ConfigFileSpec.Projects cfgFile)
    ∧ Forall (λ p, ∃ q, p = Some q ∧ boundStrings projectVars envTerraform q)
        (Config.Projects
           (LoadFromConfigFile (sampleWorld envTerraform) "infracost.yml"
              DefaultConfig logrus.std).1.1)
    ∧ Environment.HasConfigFile
        (Config.Environment_
           (LoadFromConfigFile (sampleWorld envTerraform) "infracost.yml"
              DefaultConfig logrus.std).1.1) = true
    ∧ boundStrings configStringVars envTerraform
        (LoadFromConfigFile (sampleWorld envTerraform) "infracost.yml"
           DefaultConfig logrus.std).1.1
    ∧ boundBools configBoolVars envTerraform
        (LoadFromConfigFile (sampleWorld envTerraform) "infracost.yml"
           DefaultConfig logrus.std).1.1.
Proof.
  apply (LoadFromConfigFile_precedence (sampleWorld envTerraform) "infracost.yml"
           DefaultConfig _ logrus.std
           (LoadFromConfigFile (sampleWorld envTerraform) "infracost.yml"
              DefaultConfig logrus.std).1.2).
  vm_compute. reflexivity.
Defined.

(** C8: [loadGlobalFlags] leaves [NoColor], [LogLevel] and
    [PricingAPIEndpoint] as they were resolved unless the flag of the field
    was set on the command line. *)
Theorem loadGlobalFlags_keeps_unset_flags (cfg : Config.t) (flags : pflag.FlagSet)
    (g : Globals) :
  (pflag.Changed flags "no-color" = false →
     Config.NoColor (loadGlobalFlags cfg flags g).1.1 = Config.NoColor cfg)
  ∧ (pflag.Changed flags "log-level" = false →
       Config.LogLevel (loadGlobalFlags cfg flags g).1.1 = Config.LogLevel cfg)
  ∧ (pflag.Changed flags "pricing-api-endpoint" = false →
       Config.PricingAPIEndpoint (loadGlobalFlags cfg flags g).1.1
       = Config.PricingAPIEndpoint cfg).
Proof.
  unfold loadGlobalFlags.
  destruct (pflag.Changed flags "no-color");
    destruct (pflag.Changed flags "log-level");
    destruct (pflag.Changed flags "pricing-api-endpoint");
    repeat match goal with |- context [ConfigureLogger ?c ?l] =>
             destruct (ConfigureLogger c l) as [? [?|]] end;
    simpl; repeat split; intros; first [reflexivity | discriminate].
Qed.

Lemma loadGlobalFlags_keeps_unset_flags_witness :
  Config.LogLevel
    (loadGlobalFlags (Config.set_LogLevel "debug" DefaultConfig) flagsNoColor
       {| std := quietLogger; color_NoColor := false |}).1.1 = "debug".
Proof.
  apply (loadGlobalFlags_keeps_unset_flags (Config.set_LogLevel "debug" DefaultConfig)
           flagsNoColor {| std := quietLogger; color_NoColor := false |}).
  vm_compute. reflexivity.
Defined.

(** ** The schedule [run] is a run *)

Local Close Scope string_scope.

Lemma next_step s s' : next s = Some s' → step s s'.
Proof.
  destruct s as [m c b t]. unfold next. simpl.
  destruct m; destruct c as [[]|]; destruct b; intros Heq; inversion Heq; subst;
    constructor; reflexivity.
Qed.

Lemma steps_first s s' n s'' : step s s' → steps s' n s'' → steps s (S n) s''.
Proof.
  intros Hs. induction 1 as [|n s1 s2 _ IH Hs'].
  - eapply steps_S; [apply steps_O | exact Hs].
  - eapply steps_S; [exact IH | exact Hs'].
Qed.

Lemma run_steps fuel : ∀ s, steps s (run fuel s).1 (run fuel s).2.
Proof.
  induction fuel as [|fuel IH]; intros s; simpl.
  - apply steps_O.
  - destruct (next s) as [s'|] eqn:E; [|apply steps_O].
    specialize (IH s'). destruct (run fuel s') as [n s'']. simpl in *.
    eapply steps_first; [apply next_step; exact E | exact IH].
Qed.

(** ** What the tasks of [main] do *)

Lemma events_of_cons o t :
  events_of (o :: t)
  = match o with Did _ e => e :: events_of t | _ => events_of t end.
Proof. destruct o; reflexivity. Qed.

Lemma proj_cons tid o t :
  proj tid (o :: t)
  = match o, tid with
    | Did MainTask e, MainTask | Did CheckerTask e, CheckerTask => e :: proj tid t
    | _, _ => proj tid t
    end.
Proof. destruct o as [[] e|u|], tid; reflexivity. Qed.

Lemma filter_events_main (P : Event → bool) t :
  Forall (λ e, P e = false) (proj CheckerTask t) →
  List.filter P (events_of t) = List.filter P (proj MainTask t).
Proof.
  induction t as [|o t IH]; [reflexivity|].
  rewrite events_of_cons, !proj_cons. destruct o as [[] e|u|]; intros Hall.
  - simpl. rewrite (IH Hall). reflexivity.
  - inversion Hall as [|? ? He Hall']; subst. simpl. rewrite He. auto.
  - auto.
  - auto.
Qed.

Lemma filter_none (P Q : Event → bool) l :
  (∀ e, Q e = true → P e = false) →
  Forall (λ e, Q e = true) l → List.filter P l = [].
Proof.
  intros HPQ. induction 1 as [|e l He _ IH]; simpl; [reflexivity|].
  rewrite (HPQ e He). exact IH.
Qed.

Lemma Execute_events a cfg g : Forall (λ e, is_command e = true) (Execute a cfg g).1.
Proof.
  destruct a as [err|flags body]; simpl; [constructor|].
  destruct (loadGlobalFlags cfg flags g) as [[cfg' g'] [err|]]; simpl; [constructor|].
  constructor; [reflexivity|]. induction (output (body cfg' g')); constructor; auto.
Qed.

Section MainEvents.
Context `{Fmt}.

Lemma updateCheck_is_check a :
  Forall (λ e, is_check e = true) (prefix_events (updateCheck a)).
Proof. rewrite updateCheck_events. destruct a as [u [e|]]; repeat constructor. Qed.

Lemma deferred_reporting cfg sp a u :
  Forall (λ e, is_reporting e = true) (prefix_events (deferred cfg sp a u)).
Proof.
  unfold deferred, handleAppErr, handleUnexpectedErr, handleUpdateMessage,
    when, seq, skip.
  destruct a as [err|], u as [[v st]|], sp; simpl;
    repeat case_bool_decide; simpl; repeat constructor.
Qed.

Lemma deferred_error_report cfg sp err :
  List.filter is_report (prefix_events (deferred cfg sp (Some err) None))
  = [SendReport cfg "error" (reportMessage err)].
Proof.
  unfold deferred, handleAppErr, handleUpdateMessage, when, seq, skip.
  destruct sp; simpl; repeat case_bool_decide; reflexivity.
Qed.

(** The reports of a run of [main] that has ended are those of the deferred
    function. *)
Lemma main_reports i cfg l appErr n s code :
  startup i = (cfg, l, Return appErr) →
  steps (start (main i)) n s →
  exit_status (main_task s) = Some code →
  reports (trace s)
  = List.filter is_report
      (prefix_events
         (deferred (cfg_after (command i cfg l).2) (spinner_after (command i cfg l).2)
            (final_appErr appErr (outcome (command i cfg l).2))
            (recovered (outcome (command i cfg l).2)))).
Proof.
  intros Hstart Hsteps Hexit.
  destruct (main_exit _ _ _ _ _ _ _ Hstart Hsteps Hexit)
    as (t & Ht & Hm & Hk & Hh & _ & _).
  unfold reports. rewrite Ht, events_of_app. simpl.
  change (events_of (Handoff (update.updateInfo (answer i))
                     :: map (Did MainTask) (notice (update.updateInfo (answer i)))))
    with (events_of (map (Did MainTask) (notice (update.updateInfo (answer i))))).
  rewrite events_of_map, List.filter_app.
  rewrite filter_events_main.
  - rewrite Hm, List.filter_app.
    rewrite (filter_none is_report is_command).
    + simpl. destruct (update.updateInfo (answer i)); simpl; rewrite app_nil_r; reflexivity.
    + intros [] He; simpl in *; congruence.
    + apply Execute_events.
  - rewrite Hk. eapply Forall_impl; [apply updateCheck_is_check|].
    intros [] He; simpl in *; congruence.
Qed.

(** The events of the main task in a run of [main] that has ended. *)
Lemma main_task_events i cfg l appErr n s code :
  startup i = (cfg, l, Return appErr) →
  steps (start (main i)) n s →
  exit_status (main_task s) = Some code →
  proj MainTask (trace s)
  = (command i cfg l).1
    ++ prefix_events
         (deferred (cfg_after (command i cfg l).2) (spinner_after (command i cfg l).2)
            (final_appErr appErr (outcome (command i cfg l).2))
            (recovered (outcome (command i cfg l).2)))
    ++ notice (update.updateInfo (answer i)).
Proof.
  intros Hstart Hsteps Hexit.
  destruct (main_exit _ _ _ _ _ _ _ Hstart Hsteps Hexit)
    as (t & Ht & Hm & _).
  rewrite Ht, proj_app, proj_cons, proj_map_main, Hm, <- app_assoc. reflexivity.
Qed.

(** Where the events of such a run come from. *)
Lemma main_event_origin i cfg l appErr n s code e :
  startup i = (cfg, l, Return appErr) →
  steps (start (main i)) n s →
  exit_status (main_task s) = Some code →
  e ∈ events_of (trace s) ↔
    e ∈ (command i cfg l).1
    ∨ e ∈ prefix_events
            (deferred (cfg_after (command i cfg l).2)
               (spinner_after (command i cfg l).2)
               (final_appErr appErr (outcome (command i cfg l).2))
               (recovered (outcome (command i cfg l).2)))
    ∨ e ∈ prefix_events (updateCheck (answer i))
    ∨ e ∈ notice (update.updateInfo (answer i)).
Proof.
  intros Hstart Hsteps Hexit.
  destruct (main_exit _ _ _ _ _ _ _ Hstart Hsteps Hexit)
    as (t & Ht & Hm & Hk & _).
  rewrite Ht, events_of_app, events_of_cons, events_of_map, elem_of_app.
  rewrite <- Hk. split.
  - intros [Hin|Hin]; [|tauto].
    destruct (events_of_proj _ _ Hin) as [Hin'|Hin']; [|tauto].
    rewrite Hm in Hin'. apply elem_of_app in Hin'. tauto.
  - intros [Hin|[Hin|[Hin|Hin]]]; [| | |tauto]; left.
    + apply (proj_events_of MainTask). rewrite Hm. apply elem_of_app. tauto.
    + apply (proj_events_of MainTask). rewrite Hm. apply elem_of_app. tauto.
    + apply (proj_events_of CheckerTask). exact Hin.
Qed.

End MainEvents.

Lemma filter_all (P : Event → bool) l :
  Forall (λ e, P e = true) l → List.filter P l = l.
Proof.
  induction 1 as [|e l He _ IH]; simpl; [reflexivity|]. rewrite He, IH. reflexivity.
Qed.

(** ** The orchestrator *)




(** C3: on every path on which the command ends (return of nil, return of
    an error, panic) the hand-off channel is drained exactly once: the one
    operation on the channel in the trace is the hand-off of the update
    info.  The output of the command and the error and fault reports all
    come before the drain, and the upgrade notice is printed, after the
    drain, exactly when the drained value is not nil. *)
Theorem drain_once_after_reporting `{Fmt} (i : Inputs) (cfg : Config.t)
    (l : logrus.Logger) (appErr : option error) (n : nat) (s : Sys) (code : Z) :
  startup i = (cfg, l, Return appErr) →
  steps (start (main i)) n s →
  exit_status (main_task s) = Some code →
  channel_ops (trace s) = [Handoff (update.updateInfo (answer i))]
  ∧ (∃ t,
       trace s = t ++ Handoff (update.updateInfo (answer i))
                   :: map (Did MainTask) (notice (update.updateInfo (answer i)))
       ∧ Forall (λ e, is_notice e = false) (events_of t)
       ∧ List.filter (λ e, is_command e || is_reporting e) (events_of t)
         = (command i cfg l).1
           ++ prefix_events
                (deferred (cfg_after (command i cfg l).2)
                   (spinner_after (command i cfg l).2)
                   (final_appErr appErr (outcome (command i cfg l).2))
                   (recovered (outcome (command i cfg l).2))))
  ∧ ((∃ info, UpgradeNotice info ∈ events_of (trace s))
       ↔ update.updateInfo (answer i) ≠ None).
Proof.
  intros Hstart Hsteps Hexit.
  destruct (main_exit _ _ _ _ _ _ _ Hstart Hsteps Hexit)
    as (t & Ht & Hm & Hk & Hh & _ & _).
  pose proof (Execute_events (args i) cfg {| std := l; color_NoColor := noColor i |})
    as Hcmd. fold (command i cfg l) in Hcmd.
  pose proof (deferred_reporting (cfg_after (command i cfg l).2)
                (spinner_after (command i cfg l).2)
                (final_appErr appErr (outcome (command i cfg l).2))
                (recovered (outcome (command i cfg l).2))) as Hrep.
  pose proof (updateCheck_is_check (answer i)) as Hchk.
  assert (Forall (λ e, is_notice e = false) (events_of t)) as Hnot.
  { apply Forall_forall. intros e He.
    destruct (events_of_proj _ _ He) as [Hin|Hin].
    - rewrite Hm in Hin. apply elem_of_app in Hin as [Hin|Hin].
      + rewrite Forall_forall in Hcmd. specialize (Hcmd e Hin). destruct e; simpl in *; congruence.
      + rewrite Forall_forall in Hrep. specialize (Hrep e Hin). destruct e; simpl in *; congruence.
    - rewrite Hk in Hin. rewrite Forall_forall in Hchk. specialize (Hchk e Hin).
      destruct e; simpl in *; congruence. }
  split; [|split].
  - rewrite Ht, channel_ops_app. simpl.
    change (channel_ops (Handoff (update.updateInfo (answer i))
              :: map (Did MainTask) (notice (update.updateInfo (answer i)))))
      with (Handoff (update.updateInfo (answer i))
              :: channel_ops (map (Did MainTask) (notice (update.updateInfo (answer i))))).
    rewrite channel_ops_map, Hh. reflexivity.
  - exists t. split; [exact Ht|]. split; [exact Hnot|].
    rewrite filter_events_main.
    + rewrite Hm. apply filter_all. apply Forall_app. split.
      * eapply Forall_impl; [exact Hcmd|]. intros e He. simpl in He. rewrite He. reflexivity.
      * eapply Forall_impl; [exact Hrep|]. intros e He. simpl in He. rewrite He.
        apply orb_true_r.
    + rewrite Hk. eapply Forall_impl; [exact Hchk|].
      intros [] He; simpl in *; congruence.
  - rewrite Ht, events_of_app.
    change (events_of (Handoff (update.updateInfo (answer i))
              :: map (Did MainTask) (notice (update.updateInfo (answer i)))))
      with (events_of (map (Did MainTask) (notice (update.updateInfo (answer i))))).
    rewrite events_of_map. split.
    + intros [info Hin]. apply elem_of_app in Hin as [Hin|Hin].
      * rewrite Forall_forall in Hnot. specialize (Hnot _ Hin). discriminate.
      * destruct (update.updateInfo (answer i)); [discriminate|].
        apply elem_of_nil in Hin. contradiction.
    + intros Hne. destruct (update.updateInfo (answer i)) as [info|]; [|congruence].
      exists info. apply elem_of_app. right. apply list_elem_of_here.
Qed.

Lemma drain_once_after_reporting_witness :
  channel_ops (trace (run 20 (start (@main plainQuote invocationOk))).2)
  = [Handoff (Some newer)].
Proof.
  apply (@drain_once_after_reporting plainQuote invocationOk
           (startup invocationOk).1.1 (startup invocationOk).1.2 None
           (run 20 (start (@main plainQuote invocationOk))).1
           (run 20 (start (@main plainQuote invocationOk))).2 0).
  - vm_compute. reflexivity.
  - apply run_steps.
  - vm_compute. reflexivity.
Defined.

Lemma command_with_answer a i cfg l : command (with_answer a i) cfg l = command i cfg l.
Proof. reflexivity. Qed.

(** C4: whatever the update check answers, its task does its events, sends
    the update it got once on the hand-off channel and then closes it; an
    error of the check is logged with [Debugf] and nothing else.  So every
    run of [main] is bounded and never stuck, the drain gets that one
    value, which is nil for a failed check, and a failed check leaves the
    exit code and what the main task does as they are with a check that
    finds no update. *)
Theorem update_check_hands_off_once `{Fmt} (i : Inputs) (cfg : Config.t)
    (l : logrus.Logger) (appErr : option error) (n : nat) (s : Sys) :
  startup i = (cfg, l, Return appErr) →
  steps (start (main i)) n s →
  updateCheck (answer i)
  = emits (prefix_events (updateCheck (answer i)))
      (Send (update.updateInfo (answer i)) (Close Ret))
  ∧ (∀ err, update.err (answer i) = Some err →
       prefix_events (updateCheck (answer i))
       = [CheckForUpdate;
          Debugf ("error checking for update: " ++ Error err)%string])
  ∧ (n ≤ psize (update.updateInfo (answer i)) (main i))%nat
  ∧ (running s → ∃ s', step s s')
  ∧ (∃ n' s', steps (start (main i)) n' s' ∧ exit_status (main_task s') ≠ None)
  ∧ (∀ code, exit_status (main_task s) = Some code →
       channel_ops (trace s) = [Handoff (update.updateInfo (answer i))]
       ∧ (checker s = Some (Close Ret) ∧ closed s = false
          ∨ checker s = Some Ret ∧ closed s = true)
       ∧ (∀ err n' s' code',
            answer i = update.Failure err →
            steps (start (main (with_answer (update.Latest None) i))) n' s' →
            exit_status (main_task s') = Some code' →
            code' = code ∧ proj MainTask (trace s') = proj MainTask (trace s))).
Proof.
  intros Hstart Hsteps.
  destruct (main_bound _ _ _ _ _ _ Hstart Hsteps) as [Hn Hprog].
  split; [|split; [|split; [|split; [|split]]]]; auto.
  - rewrite <- (updateCheck_sends (answer i)). apply emits_prefix.
  - intros err Ha. rewrite updateCheck_events, Ha. reflexivity.
  - exact (main_completes _ _ _ _ Hstart).
  - intros code Hexit.
    destruct (main_exit _ _ _ _ _ _ _ Hstart Hsteps Hexit)
      as (t & Ht & _ & _ & Hh & Hcode & Hchk).
    split; [|split; [exact Hchk|]].
    + rewrite Ht, channel_ops_app, Hh. simpl.
      change (channel_ops (Handoff (update.updateInfo (answer i))
                :: map (Did MainTask) (notice (update.updateInfo (answer i)))))
        with (Handoff (update.updateInfo (answer i))
                :: channel_ops (map (Did MainTask) (notice (update.updateInfo (answer i))))).
      rewrite channel_ops_map. reflexivity.
    + intros err n' s' code' Ha Hsteps' Hexit'.
      assert (startup (with_answer (update.Latest None) i) = (cfg, l, Return appErr))
        as Hstart' by exact Hstart.
      destruct (main_exit _ _ _ _ _ _ _ Hstart' Hsteps' Hexit')
        as (t' & _ & _ & _ & _ & Hcode' & _).
      rewrite command_with_answer in Hcode'. split; [congruence|].
      rewrite (main_task_events _ _ _ _ _ _ _ Hstart Hsteps Hexit).
      rewrite (main_task_events _ _ _ _ _ _ _ Hstart' Hsteps' Hexit').
      rewrite command_with_answer, Ha. reflexivity.
Qed.

Lemma update_check_hands_off_once_witness :
  channel_ops (trace (run 20 (start (@main plainQuote invocationCheckFails))).2)
  = [Handoff None]
  ∧ exit_status (main_task (run 20 (start (@main plainQuote invocationCheckFails))).2)
    = exit_status (main_task (run 20 (start (@main plainQuote invocationNoKey))).2).
Proof.
  pose proof (@update_check_hands_off_once plainQuote invocationCheckFails
           (startup invocationCheckFails).1.1 (startup invocationCheckFails).1.2 None
           (run 20 (start (@main plainQuote invocationCheckFails))).1
           (run 20 (start (@main plainQuote invocationCheckFails))).2
           ltac:(vm_compute; reflexivity) (run_steps _ _))
    as (_ & _ & _ & _ & _ & Hexit).
  destruct (Hexit 1 ltac:(vm_compute; reflexivity)) as (Hh & _ & Hsame).
  split; [exact Hh|].
  destruct (Hsame (errorString "dial tcp: i/o timeout")
              (run 20 (start (@main plainQuote invocationNoKey))).1
              (run 20 (start (@main plainQuote invocationNoKey))).2 1
              eq_refl (run_steps _ _) ltac:(vm_compute; reflexivity)) as [_ _].
  vm_compute. reflexivity.
Defined.

(** C9: when the command returns an error, one event report is sent and
    its message is the error message with the formatting codes stripped,
    unless the error is or wraps a labeled event error: then the message is
    the stripped label, as for the label missing-api-key. *)
Theorem error_report_message `{Fmt} (i : Inputs) (cfg : Config.t)
    (l : logrus.Logger) (appErr : option error) (n : nat) (s : Sys) (code : Z)
    (err : error) :
  startup i = (cfg, l, Return appErr) →
  steps (start (main i)) n s →
  exit_status (main_task s) = Some code →
  outcome (command i cfg l).2 = Returned (Some err) →
  reports (trace s)
  = [SendReport (cfg_after (command i cfg l).2) "error" (reportMessage err)]
  ∧ (errors_As err = None → reportMessage err = ui.StripColor (Error err))
  ∧ (∀ ev, errors_As err = Some ev →
       reportMessage err = ui.StripColor (events.Label ev))
  ∧ (∀ cause msg,
       reportMessage (eventsError "missing-api-key" cause) = "missing-api-key"%string
       ∧ reportMessage (withMessage msg (eventsError "missing-api-key" cause))
         = "missing-api-key"%string).
Proof.
  intros Hstart Hsteps Hexit Hout.
  pose proof (main_reports _ _ _ _ _ _ _ Hstart Hsteps Hexit) as Hrep.
  rewrite Hout in Hrep. unfold final_appErr, recovered in Hrep.
  rewrite deferred_error_report in Hrep.
  split; [exact Hrep|]. unfold reportMessage. split; [|split].
  - intros ->. reflexivity.
  - intros ev ->. reflexivity.
  - intros cause msg. split; reflexivity.
Qed.

Lemma error_report_message_witness :
  reports (trace (run 20 (start (@main plainQuote invocationNoKey))).2)
  = [SendReport (cfg_after (command invocationNoKey (startup invocationNoKey).1.1
                              (startup invocationNoKey).1.2).2)
       "error" "missing-api-key"].
Proof.
  apply (@error_report_message plainQuote invocationNoKey
           (startup invocationNoKey).1.1 (startup invocationNoKey).1.2 None
           (run 20 (start (@main plainQuote invocationNoKey))).1
           (run 20 (start (@main plainQuote invocationNoKey))).2 1
           (eventsError "missing-api-key"
              (errorString "No INFRACOST_API_KEY environment variable is set."))).
  - vm_compute. reflexivity.
  - apply run_steps.
  - vm_compute. reflexivity.
  - vm_compute. reflexivity.
Defined.

(** C1, evaluated on an invocation with INFRACOST_LOG_LEVEL=bogus and a
    subcommand that returns nil: [LoadFromEnv] returns the level error, and
    yet every run of [main] runs the body of the subcommand, prints and
    reports no error, and exits with code 0; the error of the start-up is
    overwritten by the result of [rootCmd.Execute()]. *)
Theorem startup_error_is_dropped `{Fmt} :
  (startup invocationBogusLevel).2 = Return (Some (levelError "bogus"))
  ∧ (∃ n s, steps (start (main invocationBogusLevel)) n s
            ∧ exit_status (main_task s) = Some 0)
  ∧ (∀ n s code,
       steps (start (main invocationBogusLevel)) n s →
       exit_status (main_task s) = Some code →
       code = 0
       ∧ RunBody ∈ events_of (trace s)
       ∧ Forall (λ e, is_reporting e = false) (events_of (trace s))).
Proof.
  set (i := invocationBogusLevel).
  assert (startup i = ((startup i).1.1, (startup i).1.2,
                       Return (Some (levelError "bogus")))) as Hstart
    by (vm_compute; reflexivity).
  assert ((command i (startup i).1.1 (startup i).1.2).1
          = [RunBody; CommandOutput "Project: examples/a"]) as Hcmd
    by (vm_compute; reflexivity).
  assert (outcome (command i (startup i).1.1 (startup i).1.2).2 = Returned None)
    as Hout by (vm_compute; reflexivity).
  split; [vm_compute; reflexivity|]. split.
  - exists (run 20 (start (main i))).1, (run 20 (start (main i))).2.
    split; [apply run_steps | vm_compute; reflexivity].
  - intros n s code Hsteps Hexit.
    destruct (main_exit _ _ _ _ _ _ _ Hstart Hsteps Hexit)
      as (t & _ & _ & _ & _ & Hcode & _).
    rewrite Hout in Hcode. unfold final_appErr, recovered in Hcode.
    rewrite bool_decide_eq_false_2 in Hcode by (intros [Hc|Hc]; congruence).
    split; [exact Hcode|]. split.
    + apply (main_event_origin _ _ _ _ _ _ _ _ Hstart Hsteps Hexit).
      left. rewrite Hcmd. apply list_elem_of_here.
    + apply Forall_forall. intros e He.
      apply (main_event_origin _ _ _ _ _ _ _ _ Hstart Hsteps Hexit) in He
        as [He|[He|[He|He]]].
      * rewrite Hcmd in He.
        repeat (apply elem_of_cons in He as [->|He]); try reflexivity.
        apply elem_of_nil in He. contradiction.
      * rewrite Hout in He. apply elem_of_nil in He. contradiction.
      * pose proof (updateCheck_is_check (answer i)) as Hchk.
        rewrite Forall_forall in Hchk. specialize (Hchk e He).
        destruct e; simpl in *; congruence.
      * apply elem_of_nil in He. contradiction.
Qed.

(** ** The sorting function of the formatter *)

Lemma swap_head_Permutation {A : Type} (l : list A) (j : nat) (x y : A) :
  l !! j = Some y → y :: <[j := x]> l ≡ₚ x :: l.
Proof.
  revert j. induction l as [|a l IH]; intros [|j] Hj; simpl in *; try discriminate.
  - injection Hj as ->. apply perm_swap.
  - rewrite (perm_swap a y), (IH j Hj). apply perm_swap.
Qed.

Lemma swap_Permutation {A : Type} (l : list A) (i j : nat) (x y : A) :
  l !! i = Some x → l !! j = Some y → <[j := x]> (<[i := y]> l) ≡ₚ l.
Proof.
  revert i j. induction l as [|a l IH]; intros [|i] [|j] Hi Hj; simpl in *;
    try discriminate.
  - injection Hi as ->. injection Hj as ->. reflexivity.
  - injection Hi as ->. apply swap_head_Permutation. exact Hj.
  - injection Hj as ->. symmetry. rewrite <- (swap_head_Permutation l i y x Hi).
    reflexivity.
  - rewrite (IH i j Hi Hj). reflexivity.
Qed.

Lemma firstMsg_Some i0 n keys i :
  firstMsg i0 n keys = Some i →
  ∃ j, i = (i0 + j)%nat ∧ keys !! j = Some "msg"%string ∧ i ≠ (n - 1)%nat.
Proof.
  revert i0. induction keys as [|key rest IH]; intros i0 Hf; simpl in Hf;
    [discriminate|].
  destruct (bool_decide (key = "msg"%string) && negb (i0 =? n - 1)%nat) eqn:E.
  - injection Hf as <-. apply andb_true_iff in E as [Hk Hn].
    apply bool_decide_eq_true in Hk. apply negb_true_iff, Nat.eqb_neq in Hn.
    exists 0%nat. rewrite Nat.add_0_r. subst key. auto.
  - destruct (IH _ Hf) as (j & -> & Hj & Hn). exists (S j). split; [lia|]. auto.
Qed.

Lemma firstMsg_None i0 n keys :
  firstMsg i0 n keys = None →
  ∀ j, keys !! j = Some "msg"%string → (i0 + j)%nat = (n - 1)%nat.
Proof.
  revert i0. induction keys as [|key rest IH]; intros i0 Hf j Hj; simpl in Hf;
    [discriminate|].
  destruct (bool_decide (key = "msg"%string) && negb (i0 =? n - 1)%nat) eqn:E;
    [discriminate|].
  destruct j as [|j]; simpl in Hj.
  - injection Hj as ->. rewrite bool_decide_eq_true_2 in E by reflexivity.
    simpl in E. apply negb_false_iff, Nat.eqb_eq in E. lia.
  - specialize (IH _ Hf j Hj). lia.
Qed.

Lemma SortingFunc_Permutation (keys : list string) : SortingFunc keys ≡ₚ keys.
Proof.
  unfold SortingFunc.
  destruct (firstMsg 0 (length keys) keys) as [i|] eqn:Hf; [|reflexivity].
  destruct (keys !! i) as [ki|] eqn:Hi; [|reflexivity].
  destruct (keys !! (length keys - 1)%nat) as [kl|] eqn:Hl; [|reflexivity].
  apply swap_Permutation; assumption.
Qed.

Lemma SortingFunc_last (keys : list string) :
  "msg"%string ∈ keys → last (SortingFunc keys) = Some "msg"%string.
Proof.
  intros Hin. unfold SortingFunc.
  destruct (firstMsg 0 (length keys) keys) as [i|] eqn:Hf.
  - destruct (firstMsg_Some _ _ _ _ Hf) as (j & -> & Hj & Hn). simpl in *.
    rewrite Hj.
    destruct (keys !! (length keys - 1)%nat) as [kl|] eqn:Hl.
    + rewrite last_lookup, length_insert, length_insert.
      replace (pred (length keys)) with (length keys - 1)%nat by lia.
      apply list_lookup_insert_eq. rewrite length_insert.
      apply lookup_lt_Some in Hl. exact Hl.
    + apply lookup_lt_Some in Hj. apply lookup_ge_None in Hl. lia.
  - apply list_elem_of_lookup in Hin as [j Hj].
    pose proof (firstMsg_None _ _ _ Hf j Hj) as Hlast. simpl in Hlast.
    rewrite last_lookup. replace (pred (length keys)) with j by lia. exact Hj.
Qed.

(** X1: the sorting function only reorders the keys, and when "msg" is one
    of them it ends up last. *)
Theorem SortingFunc_msg_last (keys : list string) :
  SortingFunc keys ≡ₚ keys
  ∧ ("msg"%string ∈ keys → last (SortingFunc keys) = Some "msg"%string).
Proof. split; [apply SortingFunc_Permutation | apply SortingFunc_last]. Qed.

Lemma SortingFunc_msg_last_witness :
  last (SortingFunc ["msg"; "level"; "time"; "project"]%string) = Some "msg"%string.
Proof.
  apply (SortingFunc_msg_last ["msg"; "level"; "time"; "project"]%string).
  apply list_elem_of_here.
Defined.

(** X2: sorting the keys a second time changes nothing, and keys without
    "msg" are left as they are. *)
Theorem SortingFunc_idempotent (keys : list string) :
  SortingFunc (SortingFunc keys) = SortingFunc keys
  ∧ ("msg"%string ∉ keys → SortingFunc keys = keys).
Proof.
  assert (∀ ks : list string,
            last ks = Some "msg"%string ∨ "msg"%string ∉ ks → SortingFunc ks = ks)
    as Hfix.
  { intros ks Hks. unfold SortingFunc.
    destruct (firstMsg 0 (length ks) ks) as [i|] eqn:Hf; [|reflexivity].
    destruct (firstMsg_Some _ _ _ _ Hf) as (j & -> & Hj & _). simpl.
    rewrite Hj. destruct Hks as [Hlast|Hnot].
    - rewrite last_lookup in Hlast.
      replace (pred (length ks)) with (length ks - 1)%nat in Hlast by lia.
      rewrite Hlast. rewrite (list_insert_id ks j) by exact Hj.
      apply list_insert_id. exact Hlast.
    - destruct Hnot. apply list_elem_of_lookup. eauto. }
  split.
  - destruct (decide ("msg"%string ∈ keys)) as [Hin|Hnot].
    + apply Hfix. left. apply SortingFunc_last. exact Hin.
    + rewrite (Hfix keys) by (right; exact Hnot). apply Hfix. right. exact Hnot.
  - intros Hnot. apply Hfix. right. exact Hnot.
Qed.

(** ** More on the logger *)

Local Open Scope string_scope.

(** X3: a call of [ConfigureLogger] with a recognized level replaces the
    whole configuration of the logger: the result does not depend on the
    logger before; and for any level a second call with the same
    configuration changes nothing. *)
Theorem ConfigureLogger_replaces (c : Config.t) (l1 l2 : logrus.Logger) :
  (recognized (Config.LogLevel c) → ConfigureLogger c l1 = ConfigureLogger c l2)
  ∧ ConfigureLogger c (ConfigureLogger c l1).1 = ConfigureLogger c l1.
Proof.
  unfold ConfigureLogger. split.
  - intros [level Hin]. pose proof (ParseLevel_recognized _ _ Hin) as Hp.
    case_bool_decide as Hempty.
    + rewrite Hempty in Hp. discriminate.
    + rewrite Hp. reflexivity.
  - case_bool_decide as Hempty; [reflexivity|].
    destruct (logrus.ParseLevel (Config.LogLevel c)); reflexivity.
Qed.

Lemma ConfigureLogger_replaces_witness :
  ConfigureLogger (Config.set_LogLevel "WARNING" DefaultConfig) quietLogger
  = ConfigureLogger (Config.set_LogLevel "WARNING" DefaultConfig) logrus.std.
Proof.
  refine (proj1 (ConfigureLogger_replaces
                   (Config.set_LogLevel "WARNING" DefaultConfig)
                   quietLogger logrus.std) _).
  exists logrus.WarnLevel. vm_compute.
  do 4 apply list_elem_of_further. apply list_elem_of_here.
Defined.

(** X4: [IsLogging] tells where the configured logger writes: to the
    diagnostic stream when it is true, nowhere when it is false, whether
    or not the level parses. *)
Theorem IsLogging_output (c : Config.t) (l : logrus.Logger) :
  logrus.Out (ConfigureLogger c l).1
  = if IsLogging c then logrus.Stderr else logrus.Discard.
Proof.
  unfold IsLogging, ConfigureLogger. case_bool_decide; simpl; [reflexivity|].
  destruct (logrus.ParseLevel (Config.LogLevel c)); reflexivity.
Qed.

(** ** More on the environment layer *)

Lemma processFields_State env c :
  Config.State_ (envconfig.processFields env c).1 = Config.State_ c
  ∧ Config.Credentials_ (envconfig.processFields env c).1 = Config.Credentials_ c.
Proof.
  unfold envconfig.processFields, envconfig.bindBool, envconfig.bindString.
  repeat match goal with |- context [match ?m !! ?k with _ => _ end] =>
           destruct (m !! k) end;
    repeat match goal with |- context [strconv.ParseBool ?v] =>
             destruct (strconv.ParseBool v) end; split; reflexivity.
Qed.

Lemma processFields_idem env c :
  envconfig.processFields env (envconfig.processFields env c).1
  = envconfig.processFields env c.
Proof.
  unfold envconfig.processFields, envconfig.bindBool, envconfig.bindString.
  destruct (env !! "INFRACOST_LOG_LEVEL");
  (destruct (env !! "INFRACOST_NO_COLOR") as [v1|];
     [destruct (strconv.ParseBool v1)|]);
  (destruct (env !! "INFRACOST_SKIP_UPDATE_CHECK") as [v2|];
     [destruct (strconv.ParseBool v2)|]);
  simpl; try reflexivity;
  destruct (env !! "INFRACOST_API_KEY");
  destruct (env !! "INFRACOST_PRICING_API_ENDPOINT");
  destruct (env !! "INFRACOST_DEFAULT_PRICING_API_ENDPOINT");
  destruct (env !! "INFRACOST_DASHBOARD_API_ENDPOINT"); reflexivity.
Qed.

Lemma processFields_set_Projects env ps c :
  envconfig.processFields env (Config.set_Projects ps c)
  = (Config.set_Projects ps (envconfig.processFields env c).1,
     (envconfig.processFields env c).2).
Proof.
  unfold envconfig.processFields, envconfig.bindBool, envconfig.bindString.
  destruct (env !! "INFRACOST_LOG_LEVEL");
  (destruct (env !! "INFRACOST_NO_COLOR") as [v1|];
     [destruct (strconv.ParseBool v1)|]);
  (destruct (env !! "INFRACOST_SKIP_UPDATE_CHECK") as [v2|];
     [destruct (strconv.ParseBool v2)|]);
  simpl; try reflexivity;
  destruct (env !! "INFRACOST_API_KEY");
  destruct (env !! "INFRACOST_PRICING_API_ENDPOINT");
  destruct (env !! "INFRACOST_DEFAULT_PRICING_API_ENDPOINT");
  destruct (env !! "INFRACOST_DASHBOARD_API_ENDPOINT"); reflexivity.
Qed.

Lemma Process_Config_idem env c :
  envconfig.Process_Config env (envconfig.Process_Config env c).1
  = envconfig.Process_Config env c.
Proof.
  unfold envconfig.Process_Config.
  rewrite (allocState_fixed (envconfig.processFields env (envconfig.allocState c)).1).
  - apply processFields_idem.
  - rewrite (proj1 (processFields_State env _)), allocState_State.
    destruct (Config.State_ c); discriminate.
Qed.

Lemma Process_Config_set_Projects env ps c :
  envconfig.Process_Config env (Config.set_Projects ps c)
  = (Config.set_Projects ps (envconfig.Process_Config env c).1,
     (envconfig.Process_Config env c).2).
Proof.
  unfold envconfig.Process_Config.
  rewrite <- processFields_set_Projects. f_equal.
  unfold envconfig.allocState. simpl. destruct (Config.State_ c); reflexivity.
Qed.

Lemma bindProject_idem env p :
  envconfig.bindProject env (envconfig.bindProject env p) = envconfig.bindProject env p.
Proof.
  unfold envconfig.bindProject, envconfig.bindString.
  destruct (env !! "INFRACOST_TERRAFORM_BINARY");
  destruct (env !! "INFRACOST_TERRAFORM_WORKSPACE");
  destruct (env !! "INFRACOST_TERRAFORM_CLOUD_HOST");
  destruct (env !! "INFRACOST_TERRAFORM_CLOUD_TOKEN"); reflexivity.
Qed.

Lemma processProjects_idem env ps :
  processProjects env (processProjects env ps).1 = processProjects env ps.
Proof.
  induction ps as [|p ps IH]; [reflexivity|]. simpl.
  destruct p as [p|]; simpl; [|reflexivity].
  destruct (processProjects env ps) as [rest e] eqn:E. simpl in *.
  rewrite bindProject_idem, IH. reflexivity.
Qed.

(** X5: binding the environment a second time changes nothing: applied to
    its own result, [loadEnvVars] returns that result and the same error,
    on the failing paths too. *)
Theorem loadEnvVars_idempotent (env : envconfig.Env) (c : Config.t) :
  loadEnvVars env (loadEnvVars env c).1 = loadEnvVars env c.
Proof.
  unfold loadEnvVars. pose proof (Process_Config_idem env c) as Hidem.
  destruct (envconfig.Process_Config env c) as [c1 [e|]] eqn:E1; simpl in *.
  - rewrite Hidem. reflexivity.
  - pose proof (processProjects_idem env (Config.Projects c1)) as Hp.
    destruct (processProjects env (Config.Projects c1)) as [ps e2] eqn:E2.
    simpl in *. rewrite Process_Config_set_Projects, Hidem. simpl.
    rewrite Hp. reflexivity.
Qed.

Lemma processFields_frame env c :
  (∀ key field, (key, field) ∈ configStringVars → env !! key = None →
     field (envconfig.processFields env c).1 = field c)
  ∧ (∀ key field, (key, field) ∈ configBoolVars → env !! key = None →
       field (envconfig.processFields env c).1 = field c)
  ∧ Config.Version (envconfig.processFields env c).1 = Config.Version c
  ∧ Config.Format (envconfig.processFields env c).1 = Config.Format c
  ∧ Config.ShowSkipped (envconfig.processFields env c).1 = Config.ShowSkipped c
  ∧ Config.SyncUsageFile (envconfig.processFields env c).1 = Config.SyncUsageFile c
  ∧ Config.Fields (envconfig.processFields env c).1 = Config.Fields c
  ∧ Config.Projects (envconfig.processFields env c).1 = Config.Projects c
  ∧ Config.Environment_ (envconfig.processFields env c).1 = Config.Environment_ c.
Proof.
  unfold envconfig.processFields, envconfig.bindBool, envconfig.bindString.
  split; [|split].
  - intros key field Hin Hlk. unfold configStringVars in Hin.
    repeat (apply elem_of_cons in Hin as [Hin|Hin]);
      try (apply elem_of_nil in Hin; contradiction);
      inversion Hin; subst; rewrite ?Hlk;
      repeat match goal with |- context [match ?m !! ?k with _ => _ end] =>
               destruct (m !! k) end;
      repeat match goal with |- context [strconv.ParseBool ?v] =>
               destruct (strconv.ParseBool v) end; reflexivity.
  - intros key field Hin Hlk. unfold configBoolVars in Hin.
    repeat (apply elem_of_cons in Hin as [Hin|Hin]);
      try (apply elem_of_nil in Hin; contradiction);
      inversion Hin; subst; rewrite ?Hlk;
      repeat match goal with |- context [match ?m !! ?k with _ => _ end] =>
               destruct (m !! k) end;
      repeat match goal with |- context [strconv.ParseBool ?v] =>
               destruct (strconv.ParseBool v) end; reflexivity.
  - repeat match goal with |- context [match ?m !! ?k with _ => _ end] =>
             destruct (m !! k) end;
      repeat match goal with |- context [strconv.ParseBool ?v] =>
               destruct (strconv.ParseBool v) end; repeat split; reflexivity.
Qed.

Lemma Process_Config_frame env c :
  (∀ key field, (key, field) ∈ configStringVars → env !! key = None →
     field (envconfig.Process_Config env c).1 = field c)
  ∧ (∀ key field, (key, field) ∈ configBoolVars → env !! key = None →
       field (envconfig.Process_Config env c).1 = field c)
  ∧ Config.Version (envconfig.Process_Config env c).1 = Config.Version c
  ∧ Config.Format (envconfig.Process_Config env c).1 = Config.Format c
  ∧ Config.ShowSkipped (envconfig.Process_Config env c).1 = Config.ShowSkipped c
  ∧ Config.SyncUsageFile (envconfig.Process_Config env c).1 = Config.SyncUsageFile c
  ∧ Config.Fields (envconfig.Process_Config env c).1 = Config.Fields c
  ∧ Config.Projects (envconfig.Process_Config env c).1 = Config.Projects c
  ∧ Config.Environment_ (envconfig.Process_Config env c).1 = Config.Environment_ c
  ∧ Config.Credentials_ (envconfig.Process_Config env c).1 = Config.Credentials_ c
  ∧ Config.State_ (envconfig.Process_Config env c).1
    = match Config.State_ c with
      | None => Some State.zero
      | Some st => Some st
      end.
Proof.
  unfold envconfig.Process_Config.
  destruct (processFields_frame env (envconfig.allocState c))
    as (Hs & Hb & Hv & Hf & Hsh & Hsy & Hfi & Hp & He).
  destruct (processFields_State env (envconfig.allocState c)) as [Hst Hcr].
  destruct (allocState_fields c)
    as (Hs' & Hb' & Hv' & Hf' & Hsh' & Hsy' & Hfi' & Hp' & He' & Hcr').
  pose proof (allocState_State c) as Hst'.
  split; [|split]; [| |repeat split; congruence].
  - intros key field Hin Hlk. rewrite (Hs key field Hin Hlk). apply (Hs' key field Hin).
  - intros key field Hin Hlk. rewrite (Hb key field Hin Hlk). apply (Hb' key field Hin).
Qed.

Lemma bindProject_kept env p :
  keptProject env (Some p) (Some (envconfig.bindProject env p)).
Proof.
  unfold keptProject, sameIgnored, envconfig.bindProject, envconfig.bindString.
  split.
  - destruct (env !! "INFRACOST_TERRAFORM_BINARY");
    destruct (env !! "INFRACOST_TERRAFORM_WORKSPACE");
    destruct (env !! "INFRACOST_TERRAFORM_CLOUD_HOST");
    destruct (env !! "INFRACOST_TERRAFORM_CLOUD_TOKEN"); repeat split.
  - intros key field Hin Hlk. unfold projectVars in Hin.
    repeat (apply elem_of_cons in Hin as [Hin|Hin]);
      try (apply elem_of_nil in Hin; contradiction);
      inversion Hin; subst; rewrite ?Hlk;
      repeat match goal with |- context [match ?m !! ?k with _ => _ end] =>
               destruct (m !! k) end; reflexivity.
Qed.

Lemma keptProject_refl env p : keptProject env p p.
Proof. destruct p; simpl; [|exact I]. unfold sameIgnored. auto. Qed.

Lemma processProjects_kept env ps :
  Forall2 (keptProject env) ps (processProjects env ps).1.
Proof.
  induction ps as [|p ps IH]; [constructor|]. simpl.
  destruct p as [p|]; simpl.
  - destruct (processProjects env ps) as [rest e]. simpl in *.
    constructor; [apply bindProject_kept | exact IH].
  - constructor; [exact I|]. clear IH.
    induction ps; constructor; [apply keptProject_refl | assumption].
Qed.

Lemma loadEnvVars_projects_kept env c :
  Forall2 (keptProject env) (Config.Projects c) (Config.Projects (loadEnvVars env c).1).
Proof.
  unfold loadEnvVars.
  destruct (Process_Config_frame env c) as (_ & _ & _ & _ & _ & _ & _ & Hp & _).
  destruct (envconfig.Process_Config env c) as [c1 [e|]]; simpl in *.
  - rewrite Hp. clear. induction (Config.Projects c); constructor;
      [apply keptProject_refl | assumption].
  - pose proof (processProjects_kept env (Config.Projects c1)) as Hk.
    destruct (processProjects env (Config.Projects c1)) as [ps e].
    simpl in *. rewrite <- Hp. exact Hk.
Qed.

Lemma loadEnvVars_config_frame env c :
  (∀ key field, (key, field) ∈ configStringVars → env !! key = None →
     field (loadEnvVars env c).1 = field c)
  ∧ (∀ key field, (key, field) ∈ configBoolVars → env !! key = None →
       field (loadEnvVars env c).1 = field c)
  ∧ Config.Version (loadEnvVars env c).1 = Config.Version c
  ∧ Config.Format (loadEnvVars env c).1 = Config.Format c
  ∧ Config.ShowSkipped (loadEnvVars env c).1 = Config.ShowSkipped c
  ∧ Config.SyncUsageFile (loadEnvVars env c).1 = Config.SyncUsageFile c
  ∧ Config.Fields (loadEnvVars env c).1 = Config.Fields c
  ∧ Config.Environment_ (loadEnvVars env c).1 = Config.Environment_ c
  ∧ Config.Credentials_ (loadEnvVars env c).1 = Config.Credentials_ c
  ∧ Config.State_ (loadEnvVars env c).1
    = match Config.State_ c with
      | None => Some State.zero
      | Some st => Some st
      end.
Proof.
  unfold loadEnvVars.
  destruct (Process_Config_frame env c)
    as (Hs & Hb & Hv & Hf & Hsh & Hsy & Hfi & _ & He & Hcr & Hst).
  destruct (envconfig.Process_Config env c) as [c1 [e|]]; simpl in *.
  - repeat split; auto.
  - destruct (processProjects env (Config.Projects c1)) as [ps e]. simpl.
    split; [|split]; [| |repeat split; auto].
    + intros key field Hin Hlk. rewrite <- (Hs key field Hin Hlk).
      unfold configStringVars in Hin.
      repeat (apply elem_of_cons in Hin as [Hin|Hin]);
        try (apply elem_of_nil in Hin; contradiction); inversion Hin; reflexivity.
    + intros key field Hin Hlk. rewrite <- (Hb key field Hin Hlk).
      unfold configBoolVars in Hin.
      repeat (apply elem_of_cons in Hin as [Hin|Hin]);
        try (apply elem_of_nil in Hin; contradiction); inversion Hin; reflexivity.
Qed.

(** X6: what [loadEnvVars] writes, on every path: the fields whose variable
    is set, and a nil [State], which [envconfig.Process] replaces by a zero
    [State] whatever the environment holds.  A field of the [Config] whose
    variable is not set, and every field tagged [ignored], is as before; a
    [State] that is not nil, the [Environment] and the [Credentials] are as
    before; the projects are as many as before, a nil project stays nil, and
    each other project keeps its ignored fields and the fields whose
    variable is not set. *)
Theorem loadEnvVars_frame (env : envconfig.Env) (c : Config.t) :
  (∀ key field, (key, field) ∈ configStringVars → env !! key = None →
     field (loadEnvVars env c).1 = field c)
  ∧ (∀ key field, (key, field) ∈ configBoolVars → env !! key = None →
       field (loadEnvVars env c).1 = field c)
  ∧ Config.Version (loadEnvVars env c).1 = Config.Version c
  ∧ Config.Format (loadEnvVars env c).1 = Config.Format c
  ∧ Config.ShowSkipped (loadEnvVars env c).1 = Config.ShowSkipped c
  ∧ Config.SyncUsageFile (loadEnvVars env c).1 = Config.SyncUsageFile c
  ∧ Config.Fields (loadEnvVars env c).1 = Config.Fields c
  ∧ Forall2 (keptProject env) (Config.Projects c)
      (Config.Projects (loadEnvVars env c).1)
  ∧ Config.Environment_ (loadEnvVars env c).1 = Config.Environment_ c
  ∧ Config.Credentials_ (loadEnvVars env c).1 = Config.Credentials_ c
  ∧ Config.State_ (loadEnvVars env c).1
    = match Config.State_ c with
      | None => Some State.zero
      | Some st => Some st
      end.
Proof.
  destruct (loadEnvVars_config_frame env c)
    as (Hs & Hb & Hv & Hf & Hsh & Hsy & Hfi & He & Hcr & Hst).
  repeat split; auto. apply loadEnvVars_projects_kept.
Qed.

Lemma loadEnvVars_frame_witness :
  Config.PricingAPIEndpoint (loadEnvVars envTerraform DefaultConfig).1
  = "https://pricing.api.infracost.io"
  ∧ Config.State_ (loadEnvVars envTerraform DefaultConfig).1 = Some State.zero.
Proof.
  split.
  - refine (proj1 (loadEnvVars_frame envTerraform DefaultConfig)
              "INFRACOST_PRICING_API_ENDPOINT" Config.PricingAPIEndpoint _ _).
    + do 2 apply list_elem_of_further. apply list_elem_of_here.
    + vm_compute. reflexivity.
  - apply (loadEnvVars_frame envTerraform DefaultConfig).
Defined.

Lemma processProjects_prefix env ps1 ps2 :
  allSome ps1 →
  processProjects env (ps1 ++ None :: ps2)%list
  = ((map (fmap (envconfig.bindProject env)) ps1 ++ None :: ps2)%list,
     Some ErrInvalidSpecification).
Proof.
  induction 1 as [|p ps1 Hp _ IH]; [reflexivity|]. simpl.
  destruct p as [p|]; [|congruence]. simpl. rewrite IH. reflexivity.
Qed.

(** X7: when the [Config] binds and a project is nil, [loadEnvVars] stops
    at the first nil project with [ErrInvalidSpecification]: the projects
    before it are bound to the environment, the ones after it are left
    untouched. *)
Theorem loadEnvVars_stops_at_nil_project (env : envconfig.Env) (c c1 : Config.t)
    (ps1 ps2 : list (option Project.t)) :
  envconfig.Process_Config env c = (c1, None) →
  Config.Projects c = (ps1 ++ None :: ps2)%list →
  allSome ps1 →
  loadEnvVars env c
  = (Config.set_Projects
       (map (fmap (envconfig.bindProject env)) ps1 ++ None :: ps2)%list c1,
     Some ErrInvalidSpecification).
Proof.
  intros Hc Hps Hall. unfold loadEnvVars. rewrite Hc.
  destruct (Process_Config_ok _ _ _ Hc) as (_ & _ & Hp & _).
  rewrite Hp, Hps, (processProjects_prefix env ps1 ps2 Hall). reflexivity.
Qed.

Lemma loadEnvVars_stops_at_nil_project_witness :
  Config.Projects
    (loadEnvVars envTerraform
       (Config.set_Projects [Some projectA; None; Some projectB] DefaultConfig)).1
  = [Some (envconfig.bindProject envTerraform projectA); None; Some projectB].
Proof.
  rewrite (loadEnvVars_stops_at_nil_project envTerraform
             (Config.set_Projects [Some projectA; None; Some projectB] DefaultConfig)
             (envconfig.Process_Config envTerraform
                (Config.set_Projects [Some projectA; None; Some projectB]
                   DefaultConfig)).1
             [Some projectA] [Some projectB]).
  - reflexivity.
  - vm_compute. reflexivity.
  - reflexivity.
  - constructor; [discriminate | constructor].
Defined.

Lemma LoadFromEnv_keeps w c l :
  Environment.HasConfigFile (Config.Environment_ (LoadFromEnv w c l).1.1)
  = Environment.HasConfigFile (Config.Environment_ c)
  ∧ Forall2 (keptProject (Environ w)) (Config.Projects c)
      (Config.Projects (LoadFromEnv w c l).1.1).
Proof.
  unfold LoadFromEnv, loadState, loadCredentials.
  destruct (loadEnvVars_config_frame (Environ w) c)
    as (_ & _ & _ & _ & _ & _ & _ & He & _).
  pose proof (loadEnvVars_projects_kept (Environ w) c) as Hk.
  destruct (loadEnvVars (Environ w) c) as [c1 [e|]]; simpl in *.
  - rewrite He. auto.
  - destruct (ConfigureLogger c1 l) as [l1 [e|]]; simpl.
    + rewrite He. auto.
    + destruct (stateFile w) as [st|e]; simpl; [|rewrite He; auto].
      destruct (credentialsFile w) as [cr|e]; simpl; rewrite He; auto.
Qed.

(** X8: [LoadFromConfigFile] changes nothing when the file cannot be
    loaded, but once the file is parsed it is not undone: whatever happens
    in the reload of the environment, also when it returns an error,
    [HasConfigFile] is true and the projects are those of the file, each
    with nothing changed but the fields that the environment binds. *)
Theorem LoadFromConfigFile_not_atomic (w : World) (path : string) (c : Config.t)
    (l : logrus.Logger) :
  (∀ err, LoadConfigFile w path = inr err →
     LoadFromConfigFile w path c l = (c, l, Return (Some err)))
  ∧ (∀ cfgFile, LoadConfigFile w path = inl cfgFile →
       Environment.HasConfigFile
         (Config.Environment_ (LoadFromConfigFile w path c l).1.1) = true
       ∧ Forall2 (keptProject (Environ w)) (ConfigFileSpec.Projects cfgFile)
           (Config.Projects (LoadFromConfigFile w path c l).1.1)).
Proof.
  unfold LoadFromConfigFile. split.
  - intros err ->. reflexivity.
  - intros cfgFile ->.
    match goal with |- context [LoadFromEnv w ?c0 l] =>
      destruct (LoadFromEnv_keeps w c0 l) as [Hh Hk];
      destruct (LoadFromEnv w c0 l) as [[c2 l2] r] end.
    simpl in *. destruct r as [[e|]| |]; simpl; auto.
Qed.

Lemma LoadFromConfigFile_not_atomic_witness :
  (LoadFromConfigFile (sampleWorld envBogusLevel) "infracost.yml"
     DefaultConfig logrus.std).2 = Return (Some (levelError "bogus"))
  ∧ Environment.HasConfigFile
      (Config.Environment_
         (LoadFromConfigFile (sampleWorld envBogusLevel) "infracost.yml"
            DefaultConfig logrus.std).1.1) = true.
Proof.
  split; [vm_compute; reflexivity|].
  refine (proj1 (proj2 (LoadFromConfigFile_not_atomic (sampleWorld envBogusLevel)
                          "infracost.yml" DefaultConfig logrus.std)
                   {| ConfigFileSpec.Projects := [Some projectA; Some projectB] |} _)).
  reflexivity.
Defined.

(** X9: when [LoadFromEnv] returns nil, the logger is the one that
    [ConfigureLogger] makes of the resolved [Config]; a log level set in
    the environment is the level of the [Config], and the logger discards
    its output if that level is empty and else writes to the diagnostic
    stream at the level it parses to. *)
Theorem LoadFromEnv_configures_logger (w : World) (c c' : Config.t)
    (l l' : logrus.Logger) :
  LoadFromEnv w c l = (c', l', Return None) →
  ConfigureLogger c' l = (l', None)
  ∧ logrus.Formatter_ l' = infracostFormatter
  ∧ (∀ v, Environ w !! "INFRACOST_LOG_LEVEL" = Some v →
       Config.LogLevel c' = v
       ∧ (v = "" → logrus.Out l' = logrus.Discard)
       ∧ (v ≠ "" → logrus.Out l' = logrus.Stderr
                   ∧ logrus.ParseLevel v = inl (logrus.Level_ l'))).
Proof.
  intros Heq.
  destruct (LoadFromEnv_returns_nil _ _ _ _ _ Heq) as (c1 & st & cr & Hl & Hcl & _ & _ & ->).
  destruct (loadEnvVars_ok _ _ _ Hl) as (_ & _ & Hs & _).
  assert (ConfigureLogger
            (Config.set_Credentials cr
               (Config.set_Environment
                  (Environment.set_InstallID (State.InstallID st) (Config.Environment_ c1))
                  (Config.set_State (Some st) c1))) l = ConfigureLogger c1 l) as Hsame
    by reflexivity.
  rewrite Hsame, Hcl. split; [reflexivity|].
  unfold ConfigureLogger in Hcl. split.
  - case_bool_decide; [injection Hcl as <-; reflexivity|].
    destruct (logrus.ParseLevel (Config.LogLevel c1)); [|discriminate].
    injection Hcl as <-. reflexivity.
  - intros v Hv.
    assert (Config.LogLevel c1 = v) as Hlv.
    { apply (Hs "INFRACOST_LOG_LEVEL" Config.LogLevel v); [apply list_elem_of_here | exact Hv]. }
    simpl. split; [exact Hlv|]. rewrite Hlv in Hcl. split.
    + intros ->. simpl in Hcl. injection Hcl as <-. reflexivity.
    + intros Hne. rewrite bool_decide_eq_false_2 in Hcl by exact Hne.
      destruct (logrus.ParseLevel v) as [level|e]; [|discriminate].
      injection Hcl as <-. split; reflexivity.
Qed.

Lemma LoadFromEnv_configures_logger_witness :
  logrus.Level_ (LoadFromEnv (sampleWorld envTerraform) DefaultConfig logrus.std).1.2
  = logrus.DebugLevel.
Proof.
  destruct (LoadFromEnv_configures_logger (sampleWorld envTerraform) DefaultConfig
              (LoadFromEnv (sampleWorld envTerraform) DefaultConfig logrus.std).1.1
              logrus.std
              (LoadFromEnv (sampleWorld envTerraform) DefaultConfig logrus.std).1.2
              ltac:(vm_compute; reflexivity)) as (_ & _ & Hv).
  destruct (Hv "debug" ltac:(vm_compute; reflexivity)) as (_ & _ & Hne).
  destruct (Hne ltac:(discriminate)) as [_ Hp].
  assert (logrus.ParseLevel "debug" = inl logrus.DebugLevel) as Hd
    by (vm_compute; reflexivity).
  congruence.
Defined.

(** ** The dotenv files *)

Lemma Load_vars file env :
  godotenv.Load file env
  = (env ∪ fileVars (Some file),
     match file with inl _ => None | inr err => Some err end).
Proof.
  destruct file as [vars|err]; simpl; [reflexivity|].
  rewrite (right_id_L ∅ (∪)). reflexivity.
Qed.

Lemma loadDotEnv_nil fs env env' :
  loadDotEnv fs env = (env', None) →
  env' = env ∪ fileVars (envLocal fs) ∪ fileVars (dotEnv fs).
Proof.
  unfold loadDotEnv. intros Heq.
  destruct (envLocal fs) as [[v1|e1]|]; simpl in *; try discriminate;
    destruct (dotEnv fs) as [[v2|e2]|]; simpl in *; try discriminate;
    injection Heq as <-; rewrite ?(right_id_L ∅ (∪)); reflexivity.
Qed.

(** X10: when [loadDotEnv] returns nil, a variable has the value of the
    process environment if it is set there, else the value of [.env.local]
    if that file sets it, else the value of [.env]: the files only add
    variables, and [.env.local] goes before [.env]. *)
Theorem loadDotEnv_precedence (fs : DotEnvFiles) (env env' : envconfig.Env)
    (key : string) :
  loadDotEnv fs env = (env', None) →
  env' !! key
  = match env !! key with
    | Some v => Some v
    | None =>
        match fileVars (envLocal fs) !! key with
        | Some v => Some v
        | None => fileVars (dotEnv fs) !! key
        end
    end.
Proof.
  intros Heq. rewrite (loadDotEnv_nil _ _ _ Heq), !lookup_union.
  destruct (env !! key), (fileVars (envLocal fs) !! key),
    (fileVars (dotEnv fs) !! key); reflexivity.
Qed.

Lemma loadDotEnv_precedence_witness :
  (loadDotEnv sampleDotEnv envTerraform).1 !! "INFRACOST_API_KEY" = Some "ico-local".
Proof.
  rewrite (loadDotEnv_precedence sampleDotEnv envTerraform
             (loadDotEnv sampleDotEnv envTerraform).1 "INFRACOST_API_KEY").
  - vm_compute. reflexivity.
  - vm_compute. reflexivity.
Defined.

(** X11: [loadDotEnv] never changes a variable that the process has, on
    any path.  When [.env.local] fails, nothing is set and [.env] is not
    read; when [.env] fails, the variables of [.env.local] have been set
    already and stay. *)
Theorem loadDotEnv_failures (fs : DotEnvFiles) (env : envconfig.Env) :
  env ⊆ (loadDotEnv fs env).1
  ∧ (∀ err, envLocal fs = Some (inr err) →
       loadDotEnv fs env = (env, Some err))
  ∧ (∀ err, dotEnv fs = Some (inr err) →
       (∀ err', envLocal fs ≠ Some (inr err')) →
       loadDotEnv fs env = (env ∪ fileVars (envLocal fs), Some err)).
Proof.
  unfold loadDotEnv. split; [|split].
  - destruct (envLocal fs) as [[v1|e1]|]; simpl; try reflexivity;
      destruct (dotEnv fs) as [[v2|e2]|]; simpl; try reflexivity;
      repeat apply map_union_subseteq_l'; reflexivity.
  - intros err ->. reflexivity.
  - intros err -> Hok.
    destruct (envLocal fs) as [[v1|e1]|]; simpl.
    + reflexivity.
    + destruct (Hok e1). reflexivity.
    + rewrite (right_id_L ∅ (∪)). reflexivity.
Qed.

Lemma loadDotEnv_failures_witness :
  loadDotEnv brokenDotEnv envTerraform
  = (envTerraform ∪ {[ "INFRACOST_API_KEY" := "ico-local" ]},
     Some (errorString "unexpected character in variable name")).
Proof.
  refine (proj2 (proj2 (loadDotEnv_failures brokenDotEnv envTerraform))
            (errorString "unexpected character in variable name") _ _).
  - reflexivity.
  - intros err'. discriminate.
Defined.

(** X12: a variable of the process environment goes before the dotenv
    files in the [Config]: when [init] and then [loadEnvVars] succeed, a
    string field whose variable the process has set holds that value,
    whatever the files say. *)
Theorem process_environment_wins (fs : DotEnvFiles) (env0 env : envconfig.Env)
    (c c' : Config.t) (key : string) (field : Config.t → string) (v : string) :
  init fs env0 = (env, Return None) →
  loadEnvVars env c = (c', None) →
  (key, field) ∈ configStringVars →
  env0 !! key = Some v →
  field c' = v.
Proof.
  intros Hinit Hload Hin Hv. unfold init in Hinit.
  destruct (loadDotEnv fs env0) as [env1 [e|]] eqn:Hdot; [discriminate|].
  injection Hinit as <-.
  destruct (loadEnvVars_ok _ _ _ Hload) as (_ & _ & Hs & _).
  apply (Hs key field v Hin).
  rewrite (loadDotEnv_precedence _ _ _ key Hdot), Hv. reflexivity.
Qed.

Lemma process_environment_wins_witness :
  Config.LogLevel
    (loadEnvVars (init sampleDotEnv envTerraform).1 DefaultConfig).1 = "debug".
Proof.
  apply (process_environment_wins sampleDotEnv envTerraform
           (init sampleDotEnv envTerraform).1 DefaultConfig _
           "INFRACOST_LOG_LEVEL" Config.LogLevel "debug").
  - vm_compute. reflexivity.
  - vm_compute. reflexivity.
  - apply list_elem_of_here.
  - vm_compute. reflexivity.
Defined.

(** ** More on the flags *)

Lemma name_le_total : Total pflag.name_le.
Proof. intros a b. unfold pflag.name_le. apply String.leb_total. Qed.

Lemma changed_names_sublist (kvs : list (string * pflag.Flag)) :
  omap (λ kv : string * pflag.Flag,
          if pflag.Changed_ kv.2 then Some kv.1 else None) kvs
  `sublist_of` kvs.*1.
Proof.
  induction kvs as [|[k f] kvs IH]; simpl; [constructor|].
  destruct (pflag.Changed_ f); simpl; [apply sublist_skip | apply sublist_cons];
    exact IH.
Qed.

Lemma Visit_names (flags : pflag.FlagSet) :
  (∀ name, name ∈ pflag.Visit flags ↔ pflag.Changed flags name = true)
  ∧ Sorted pflag.name_le (pflag.Visit flags)
  ∧ NoDup (pflag.Visit flags).
Proof.
  unfold pflag.Visit. split; [|split].
  - intros name. rewrite merge_sort_Permutation, list_elem_of_omap.
    unfold pflag.Changed. split.
    + intros ([k f] & Hin & Hf). apply elem_of_map_to_list in Hin. simpl in Hf.
      destruct (pflag.Changed_ f) eqn:Hc; [|discriminate].
      injection Hf as <-. rewrite Hin. exact Hc.
    + destruct (flags !! name) as [f|] eqn:Hl; [|discriminate]. intros Hc.
      exists (name, f). split; [apply elem_of_map_to_list; exact Hl|].
      simpl. rewrite Hc. reflexivity.
  - apply (@Sorted_merge_sort _ pflag.name_le _ name_le_total).
  - rewrite merge_sort_Permutation.
    eapply sublist_NoDup; [|apply changed_names_sublist].
    apply NoDup_fst_map_to_list.
Qed.

(** X13: when [loadGlobalFlags] returns nil, every flag that was set is in
    its field: the value of the flag goes before whatever the earlier
    layers resolved; [color.NoColor] is the resolved [NoColor]; and
    [IsDefaultPricingAPIEndpoint] tells whether the resolved pricing
    endpoint is the default one. *)
Theorem loadGlobalFlags_applies_flags (cfg cfg' : Config.t) (flags : pflag.FlagSet)
    (g g' : Globals) :
  loadGlobalFlags cfg flags g = (cfg', g', None) →
  (pflag.Changed flags "no-color" = true →
     Config.NoColor cfg' = pflag.GetBool flags "no-color")
  ∧ (pflag.Changed flags "log-level" = true →
       Config.LogLevel cfg' = pflag.GetString flags "log-level")
  ∧ (pflag.Changed flags "pricing-api-endpoint" = true →
       Config.PricingAPIEndpoint cfg' = pflag.GetString flags "pricing-api-endpoint")
  ∧ color_NoColor g' = Config.NoColor cfg'
  ∧ (Environment.IsDefaultPricingAPIEndpoint (Config.Environment_ cfg') = true
       ↔ Config.PricingAPIEndpoint cfg' = Config.DefaultPricingAPIEndpoint cfg').
Proof.
  unfold loadGlobalFlags. intros Heq.
  destruct (pflag.Changed flags "no-color");
    destruct (pflag.Changed flags "log-level");
    destruct (pflag.Changed flags "pricing-api-endpoint");
    repeat match type of Heq with context [ConfigureLogger ?c ?l] =>
             destruct (ConfigureLogger c l) as [? [?|]] end;
    try discriminate; injection Heq as <- <-; simpl;
    rewrite bool_decide_eq_true; repeat split; intros; try discriminate;
    try reflexivity; assumption.
Qed.

Lemma loadGlobalFlags_applies_flags_witness :
  Config.PricingAPIEndpoint
    (loadGlobalFlags DefaultConfig flagsAll
       {| std := quietLogger; color_NoColor := false |}).1.1
  = "http://localhost:4000".
Proof.
  refine (proj1 (proj2 (proj2
            (loadGlobalFlags_applies_flags DefaultConfig _ flagsAll
               {| std := quietLogger; color_NoColor := false |}
               (loadGlobalFlags DefaultConfig flagsAll
                  {| std := quietLogger; color_NoColor := false |}).1.2 _))) _).
  - vm_compute. reflexivity.
  - vm_compute. reflexivity.
Defined.

(** X14: when [loadGlobalFlags] returns nil, [Environment.Flags] holds
    exactly the names of the flags that were set, each once, in the order
    of their names. *)
Theorem loadGlobalFlags_records_flags (cfg cfg' : Config.t) (flags : pflag.FlagSet)
    (g g' : Globals) :
  loadGlobalFlags cfg flags g = (cfg', g', None) →
  (∀ name, name ∈ Environment.Flags (Config.Environment_ cfg')
           ↔ pflag.Changed flags name = true)
  ∧ Sorted pflag.name_le (Environment.Flags (Config.Environment_ cfg'))
  ∧ NoDup (Environment.Flags (Config.Environment_ cfg')).
Proof.
  unfold loadGlobalFlags. intros Heq.
  assert (Environment.Flags (Config.Environment_ cfg') = pflag.Visit flags) as ->.
  { destruct (pflag.Changed flags "no-color");
      destruct (pflag.Changed flags "log-level");
      destruct (pflag.Changed flags "pricing-api-endpoint");
      repeat match type of Heq with context [ConfigureLogger ?c ?l] =>
               destruct (ConfigureLogger c l) as [? [?|]] end;
      try discriminate; injection Heq as <- <-; reflexivity. }
  apply Visit_names.
Qed.

Lemma loadGlobalFlags_records_flags_witness :
  Sorted pflag.name_le
    (Environment.Flags
       (Config.Environment_
          (loadGlobalFlags DefaultConfig flagsAll
             {| std := quietLogger; color_NoColor := false |}).1.1)).
Proof.
  apply (loadGlobalFlags_records_flags DefaultConfig _ flagsAll
           {| std := quietLogger; color_NoColor := false |}
           (loadGlobalFlags DefaultConfig flagsAll
              {| std := quietLogger; color_NoColor := false |}).1.2).
  vm_compute. reflexivity.
Defined.

Lemma ConfigureLogger_error_cases c l :
  match (ConfigureLogger c l).2 with
  | Some err => Config.LogLevel c ≠ "" ∧ logrus.ParseLevel (Config.LogLevel c) = inr err
  | None => True
  end.
Proof.
  unfold ConfigureLogger. case_bool_decide; simpl; [exact I|].
  destruct (logrus.ParseLevel (Config.LogLevel c)); simpl; auto.
Qed.

(** X15: [loadGlobalFlags] returns an error only for a log-level flag that
    was set to a value that is not empty and does not parse, and it returns
    at once: the bad level is in the [Config] and [color.NoColor] is
    written, but a pricing endpoint flag is not applied and the
    [Environment] (the default-endpoint mark, the recorded flags) is as
    before. *)
Theorem loadGlobalFlags_error (cfg cfg' : Config.t) (flags : pflag.FlagSet)
    (g g' : Globals) (err : error) :
  loadGlobalFlags cfg flags g = (cfg', g', Some err) →
  pflag.Changed flags "log-level" = true
  ∧ Config.LogLevel cfg' = pflag.GetString flags "log-level"
  ∧ Config.LogLevel cfg' ≠ ""
  ∧ logrus.ParseLevel (Config.LogLevel cfg') = inr err
  ∧ Config.PricingAPIEndpoint cfg' = Config.PricingAPIEndpoint cfg
  ∧ Config.Environment_ cfg' = Config.Environment_ cfg
  ∧ color_NoColor g' = Config.NoColor cfg'.
Proof.
  unfold loadGlobalFlags. intros Heq.
  destruct (pflag.Changed flags "log-level"); [|
    destruct (pflag.Changed flags "no-color");
    destruct (pflag.Changed flags "pricing-api-endpoint"); discriminate].
  match type of Heq with context [ConfigureLogger ?c ?l] =>
    pose proof (ConfigureLogger_error_cases c l) as Hcl;
    destruct (ConfigureLogger c l) as [l1 [e|]]; simpl in Hcl end.
  - injection Heq as <- <- <-. simpl in *. destruct Hcl as [Hne Hp].
    destruct (pflag.Changed flags "no-color"); simpl in *; auto 10.
  - destruct (pflag.Changed flags "no-color");
      destruct (pflag.Changed flags "pricing-api-endpoint"); discriminate.
Qed.

Lemma loadGlobalFlags_error_witness :
  Config.PricingAPIEndpoint
    (loadGlobalFlags DefaultConfig flagsBadLevel
       {| std := quietLogger; color_NoColor := false |}).1.1
  = "https://pricing.api.infracost.io".
Proof.
  refine (proj1 (proj2 (proj2 (proj2 (proj2
            (loadGlobalFlags_error DefaultConfig _ flagsBadLevel
               {| std := quietLogger; color_NoColor := false |}
               (loadGlobalFlags DefaultConfig flagsBadLevel
                  {| std := quietLogger; color_NoColor := false |}).1.2
               (levelError "loud") _)))))).
  vm_compute. reflexivity.
Defined.

(** X16: after [loadGlobalFlags] has returned nil, [checkAPIKey] on the
    resolved key and endpoints returns an error exactly when the
    [Environment] is marked as using the default pricing endpoint and the
    API key is empty. *)
Theorem checkAPIKey_after_flags (PrimaryString : string → string)
    (cfg cfg' : Config.t) (flags : pflag.FlagSet) (g g' : Globals) :
  loadGlobalFlags cfg flags g = (cfg', g', None) →
  checkAPIKey PrimaryString (Config.APIKey cfg') (Config.PricingAPIEndpoint cfg')
    (Config.DefaultPricingAPIEndpoint cfg') ≠ None
  ↔ Environment.IsDefaultPricingAPIEndpoint (Config.Environment_ cfg') = true
    ∧ Config.APIKey cfg' = "".
Proof.
  intros Heq.
  assert (Environment.IsDefaultPricingAPIEndpoint (Config.Environment_ cfg')
          = bool_decide (Config.PricingAPIEndpoint cfg'
                         = Config.DefaultPricingAPIEndpoint cfg')) as ->.
  { unfold loadGlobalFlags in Heq.
    destruct (pflag.Changed flags "no-color");
      destruct (pflag.Changed flags "log-level");
      destruct (pflag.Changed flags "pricing-api-endpoint");
      repeat match type of Heq with context [ConfigureLogger ?c ?l] =>
               destruct (ConfigureLogger c l) as [? [?|]] end;
      try discriminate; injection Heq as <- <-; reflexivity. }
  unfold checkAPIKey.
  destruct (bool_decide (Config.PricingAPIEndpoint cfg'
                         = Config.DefaultPricingAPIEndpoint cfg')); simpl.
  - case_bool_decide; split; intros; try discriminate; tauto.
  - split; [congruence | intros [? _]; discriminate].
Qed.

Lemma checkAPIKey_after_flags_witness :
  checkAPIKey (λ s, s)
    (Config.APIKey (loadGlobalFlags DefaultConfig flagsNoColor
                      {| std := quietLogger; color_NoColor := false |}).1.1)
    (Config.PricingAPIEndpoint (loadGlobalFlags DefaultConfig flagsNoColor
                      {| std := quietLogger; color_NoColor := false |}).1.1)
    (Config.DefaultPricingAPIEndpoint (loadGlobalFlags DefaultConfig flagsNoColor
                      {| std := quietLogger; color_NoColor := false |}).1.1)
  ≠ None.
Proof.
  apply (checkAPIKey_after_flags (λ s, s) DefaultConfig _ flagsNoColor
           {| std := quietLogger; color_NoColor := false |}
           (loadGlobalFlags DefaultConfig flagsNoColor
              {| std := quietLogger; color_NoColor := false |}).1.2).
  - vm_compute. reflexivity.
  - split; vm_compute; reflexivity.
Defined.

(** ** More on the orchestrator *)

Local Close Scope string_scope.

Section MoreRuns.
Context `{Fmt}.

Lemma deferred_panic_reports cfg sp a v st :
  List.filter is_report (prefix_events (deferred cfg sp a (Some (v, st))))
  = match a with
    | Some err => [SendReport cfg "error" (reportMessage err)]
    | None => []
    end
    ++ [SendReport cfg "error" (v ++ String "010" EmptyString ++ st)%string].
Proof.
  unfold deferred, handleAppErr, handleUnexpectedErr, handleUpdateMessage,
    when, seq, skip.
  destruct a as [err|], sp; simpl; repeat case_bool_decide; reflexivity.
Qed.

Lemma deferred_nil_reports cfg sp a :
  List.filter is_report (prefix_events (deferred cfg sp a None))
  = match a with
    | Some err => [SendReport cfg "error" (reportMessage err)]
    | None => []
    end.
Proof.
  unfold deferred, handleAppErr, handleUpdateMessage, when, seq, skip.
  destruct a as [err|], sp; simpl; repeat case_bool_decide; reflexivity.
Qed.

Lemma deferred_nil_prints cfg sp a v st :
  PrintUnexpectedError v st ∉ prefix_events (deferred cfg sp a None).
Proof.
  unfold deferred, handleAppErr, handleUpdateMessage, when, seq, skip.
  destruct a as [err|], sp; simpl; repeat case_bool_decide; simpl;
    rewrite ?elem_of_cons, ?elem_of_nil; intros Hin;
    repeat match goal with Hd : _ ∨ _ |- _ => destruct Hd end;
    try discriminate; try contradiction.
Qed.

Lemma deferred_quiet cfg sp :
  prefix_events (deferred cfg sp None None) = [].
Proof.
  unfold deferred, handleUpdateMessage, seq, skip. reflexivity.
Qed.

Lemma deferred_error_events cfg sp err :
  prefix_events (deferred cfg sp (Some err) None)
  = (if sp then [SpinnerFail; Fprintln_Stderr ""] else [])
    ++ (if bool_decide (Error err = ""%string) then [] else [PrintError (Error err)])
    ++ [SendReport cfg "error" (reportMessage err)].
Proof.
  unfold deferred, handleAppErr, handleUpdateMessage, when, seq, skip.
  destruct sp; simpl; repeat case_bool_decide; try reflexivity; congruence.
Qed.

Lemma deferred_spinner_first cfg a u :
  a ≠ None ∨ u ≠ None →
  ∃ rest, prefix_events (deferred cfg true a u)
          = SpinnerFail :: Fprintln_Stderr "" :: rest.
Proof.
  unfold deferred, handleAppErr, handleUnexpectedErr, handleUpdateMessage,
    when, seq, skip.
  destruct a as [err|], u as [[v st]|]; simpl; intros Hne;
    try (destruct Hne; congruence); eexists; reflexivity.
Qed.

(** The error and fault output and the reports of a run of [main] that has
    ended are the events of the deferred function before the drain. *)
Lemma main_reporting i cfg l appErr n s code :
  startup i = (cfg, l, Return appErr) →
  steps (start (main i)) n s →
  exit_status (main_task s) = Some code →
  List.filter is_reporting (events_of (trace s))
  = prefix_events
      (deferred (cfg_after (command i cfg l).2) (spinner_after (command i cfg l).2)
         (final_appErr appErr (outcome (command i cfg l).2))
         (recovered (outcome (command i cfg l).2))).
Proof.
  intros Hstart Hsteps Hexit.
  destruct (main_exit _ _ _ _ _ _ _ Hstart Hsteps Hexit)
    as (t & Ht & Hm & Hk & _).
  rewrite Ht, events_of_app, events_of_cons, events_of_map, List.filter_app.
  rewrite filter_events_main.
  - rewrite Hm, List.filter_app.
    rewrite (filter_none is_reporting is_command).
    + rewrite filter_all by apply deferred_reporting.
      destruct (update.updateInfo (answer i)); simpl; rewrite app_nil_r; reflexivity.
    + intros [] He; simpl in *; congruence.
    + apply Execute_events.
  - rewrite Hk. eapply Forall_impl; [apply updateCheck_is_check|].
    intros [] He; simpl in *; congruence.
Qed.

End MoreRuns.

(** X17: when a panic leaves the command, what the process does depends on
    the value that [recover()] gives.  With a value that is not nil the
    process exits with code 1 and the fault is printed and reported, with
    the value and the stack in the message of the report.  With a nil value
    (the body called [panic(nil)]) no fault is printed and none is reported,
    and the process exits with code 1 only when the start-up had returned
    an error, with code 0 otherwise.  In both cases an error of the start-up
    is still in [appErr] and is reported first. *)
Theorem panic_reports `{Fmt} (i : Inputs) (cfg : Config.t) (l : logrus.Logger)
    (appErr : option error) (n : nat) (s : Sys) (code : Z)
    (unexpectedErr : option string) (stack : string) :
  startup i = (cfg, l, Return appErr) →
  steps (start (main i)) n s →
  exit_status (main_task s) = Some code →
  outcome (command i cfg l).2 = Panicked unexpectedErr stack →
  match unexpectedErr with
  | Some v =>
      code = 1
      ∧ PrintUnexpectedError v stack ∈ events_of (trace s)
      ∧ reports (trace s)
        = match appErr with
          | Some err =>
              [SendReport (cfg_after (command i cfg l).2) "error" (reportMessage err)]
          | None => []
          end
          ++ [SendReport (cfg_after (command i cfg l).2) "error"
                (v ++ String "010" EmptyString ++ stack)%string]
  | None =>
      code = (if bool_decide (appErr ≠ None) then 1 else 0)
      ∧ (∀ v st, PrintUnexpectedError v st ∉ events_of (trace s))
      ∧ reports (trace s)
        = match appErr with
          | Some err =>
              [SendReport (cfg_after (command i cfg l).2) "error" (reportMessage err)]
          | None => []
          end
  end.
Proof.
  intros Hstart Hsteps Hexit Hout.
  pose proof (main_reports _ _ _ _ _ _ _ Hstart Hsteps Hexit) as Hrep.
  pose proof (main_reporting _ _ _ _ _ _ _ Hstart Hsteps Hexit) as Hall.
  destruct (main_exit _ _ _ _ _ _ _ Hstart Hsteps Hexit)
    as (t & _ & _ & _ & _ & Hcode & _).
  rewrite Hout in Hrep, Hcode, Hall.
  destruct unexpectedErr as [v|]; unfold final_appErr, recovered in Hrep, Hcode, Hall.
  - rewrite deferred_panic_reports in Hrep.
    rewrite bool_decide_eq_true_2 in Hcode by (right; discriminate).
    split; [exact Hcode|]. split; [|exact Hrep].
    apply (main_event_origin _ _ _ _ _ _ _ _ Hstart Hsteps Hexit).
    right. left. rewrite Hout. unfold final_appErr, recovered.
    unfold deferred, handleAppErr, handleUnexpectedErr, handleUpdateMessage,
      when, seq, skip.
    destruct appErr as [err|], (spinner_after (command i cfg l).2); simpl;
      repeat case_bool_decide;
      repeat first [apply list_elem_of_here | apply list_elem_of_further].
  - rewrite deferred_nil_reports in Hrep.
    split; [|split; [|exact Hrep]].
    + rewrite Hcode. destruct appErr as [err|].
      * rewrite !bool_decide_eq_true_2; [reflexivity | discriminate | left; discriminate].
      * rewrite !bool_decide_eq_false_2; [reflexivity | congruence |].
        intros [Hc|Hc]; congruence.
    + intros v st Hin.
      assert (PrintUnexpectedError v st
              ∈ List.filter is_reporting (events_of (trace s))) as Hin'.
      { apply list_elem_of_In, List.filter_In. split; [|reflexivity].
        apply list_elem_of_In. exact Hin. }
      rewrite Hall in Hin'. exact (deferred_nil_prints _ _ _ _ _ Hin').
Qed.

Lemma panic_reports_witness :
  length (reports (trace (run 20 (start (@main plainQuote invocationBogusPanics))).2))
  = 2%nat
  ∧ reports (trace (run 20 (start (@main plainQuote invocationNilPanic))).2) = [].
Proof.
  split.
  - destruct (@panic_reports plainQuote invocationBogusPanics
             (startup invocationBogusPanics).1.1 (startup invocationBogusPanics).1.2
             (Some (levelError "bogus"))
             (run 20 (start (@main plainQuote invocationBogusPanics))).1
             (run 20 (start (@main plainQuote invocationBogusPanics))).2 1
             (Some "runtime error: index out of range"%string)
             "goroutine 1 [running]: main.main()"
             ltac:(vm_compute; reflexivity) (run_steps _ _)
             ltac:(vm_compute; reflexivity) ltac:(vm_compute; reflexivity))
      as (_ & _ & Hrep).
    rewrite Hrep. reflexivity.
  - destruct (@panic_reports plainQuote invocationNilPanic
             (startup invocationNilPanic).1.1 (startup invocationNilPanic).1.2
             None
             (run 20 (start (@main plainQuote invocationNilPanic))).1
             (run 20 (start (@main plainQuote invocationNilPanic))).2 0
             None
             "goroutine 1 [running]: main.main()"
             ltac:(vm_compute; reflexivity) (run_steps _ _)
             ltac:(vm_compute; reflexivity) ltac:(vm_compute; reflexivity))
      as (_ & _ & Hrep).
    exact Hrep.
Defined.

(** X18: when the command returns an error, the error is printed exactly
    when its message is not empty; with an empty message nothing is
    printed, and the report is sent all the same. *)
Theorem empty_message_is_not_printed `{Fmt} (i : Inputs) (cfg : Config.t)
    (l : logrus.Logger) (appErr : option error) (n : nat) (s : Sys) (code : Z)
    (err : error) :
  startup i = (cfg, l, Return appErr) →
  steps (start (main i)) n s →
  exit_status (main_task s) = Some code →
  outcome (command i cfg l).2 = Returned (Some err) →
  (∀ msg, PrintError msg ∈ events_of (trace s)
          ↔ msg = Error err ∧ Error err ≠ ""%string)
  ∧ length (reports (trace s)) = 1%nat.
Proof.
  intros Hstart Hsteps Hexit Hout.
  pose proof (main_reports _ _ _ _ _ _ _ Hstart Hsteps Hexit) as Hrep.
  pose proof (main_reporting _ _ _ _ _ _ _ Hstart Hsteps Hexit) as Hall.
  rewrite Hout in Hrep, Hall. unfold final_appErr, recovered in Hrep, Hall.
  rewrite deferred_error_report in Hrep. rewrite deferred_error_events in Hall.
  split; [|rewrite Hrep; reflexivity].
  intros msg.
  assert (PrintError msg ∈ events_of (trace s)
          ↔ PrintError msg ∈ List.filter is_reporting (events_of (trace s))) as ->.
  { rewrite !list_elem_of_In, List.filter_In. simpl. tauto. }
  rewrite Hall.
  destruct (spinner_after (command i cfg l).2); case_bool_decide as He; simpl;
    rewrite ?elem_of_cons, ?elem_of_nil; split; intros Hx;
    repeat match goal with
           | Hd : _ ∨ _ |- _ => destruct Hd
           | Hd : _ ∧ _ |- _ => destruct Hd
           end; try discriminate; try contradiction; try congruence;
    try (match goal with Hd : PrintError _ = PrintError _ |- _ =>
           injection Hd as -> end; auto);
    subst; auto.
Qed.

Lemma empty_message_is_not_printed_witness :
  ¬ PrintError ""
    ∈ events_of (trace (run 20 (start (@main plainQuote invocationEmptyError))).2).
Proof.
  intros Hin.
  destruct (@empty_message_is_not_printed plainQuote invocationEmptyError
           (startup invocationEmptyError).1.1 (startup invocationEmptyError).1.2
           None
           (run 20 (start (@main plainQuote invocationEmptyError))).1
           (run 20 (start (@main plainQuote invocationEmptyError))).2 1
           (errorString "")
           ltac:(vm_compute; reflexivity) (run_steps _ _)
           ltac:(vm_compute; reflexivity) ltac:(vm_compute; reflexivity))
    as [Hp _].
  apply Hp in Hin as [_ Hne]. apply Hne. reflexivity.
Defined.

(** X19: when the process exits with code 1 after a command that has left
    its spinner set (the command returned an error, or a panic left it and
    there is a panic value or an error of the start-up to report), the
    spinner is failed and a blank line is written before any error or fault
    output and before any report.  When the process exits with another code
    the deferred function has handled no error: the spinner is not failed
    and nothing is printed or reported, also after a panic with a nil
    value. *)
Theorem spinner_fails_first `{Fmt} (i : Inputs) (cfg : Config.t)
    (l : logrus.Logger) (appErr : option error) (n : nat) (s : Sys) (code : Z) :
  startup i = (cfg, l, Return appErr) →
  steps (start (main i)) n s →
  exit_status (main_task s) = Some code →
  spinner_after (command i cfg l).2 = true →
  (code = 1 →
     ∃ rest, List.filter is_reporting (events_of (trace s))
             = SpinnerFail :: Fprintln_Stderr "" :: rest)
  ∧ (code ≠ 1 → List.filter is_reporting (events_of (trace s)) = []).
Proof.
  intros Hstart Hsteps Hexit Hsp.
  pose proof (main_reporting _ _ _ _ _ _ _ Hstart Hsteps Hexit) as Hall.
  destruct (main_exit _ _ _ _ _ _ _ Hstart Hsteps Hexit)
    as (t & _ & _ & _ & _ & Hcode & _).
  rewrite Hall, Hsp. split.
  - intros ->. apply deferred_spinner_first.
    case_bool_decide as Hd; [exact Hd | discriminate].
  - intros Hne. case_bool_decide as Hd; [contradiction|].
    destruct (final_appErr appErr (outcome (command i cfg l).2)) as [err|];
      [exfalso; apply Hd; left; discriminate|].
    destruct (recovered (outcome (command i cfg l).2)) as [u|];
      [exfalso; apply Hd; right; discriminate|].
    apply deferred_quiet.
Qed.

Lemma spinner_fails_first_witness :
  (∃ rest,
     List.filter is_reporting
       (events_of (trace (run 20 (start (@main plainQuote invocationPanics))).2))
     = SpinnerFail :: Fprintln_Stderr "" :: rest)
  ∧ List.filter is_reporting
      (events_of (trace (run 20 (start (@main plainQuote invocationNilPanic))).2))
    = [].
Proof.
  split.
  - refine (proj1 (@spinner_fails_first plainQuote invocationPanics
             (startup invocationPanics).1.1 (startup invocationPanics).1.2 None
             (run 20 (start (@main plainQuote invocationPanics))).1
             (run 20 (start (@main plainQuote invocationPanics))).2 1
             _ (run_steps _ _) _ _) eq_refl); vm_compute; reflexivity.
  - refine (proj2 (@spinner_fails_first plainQuote invocationNilPanic
             (startup invocationNilPanic).1.1 (startup invocationNilPanic).1.2 None
             (run 20 (start (@main plainQuote invocationNilPanic))).1
             (run 20 (start (@main plainQuote invocationNilPanic))).2 0
             _ (run_steps _ _) _ _) _);
      [vm_compute; reflexivity .. | discriminate].
Defined.

(** X20: when the state or the credentials cannot be loaded, [LoadFromEnv]
    ends in [logrus.Fatal] and so does the process: it exits with status 1,
    the error is all that is logged, the update check is never started and
    no command runs. *)
Theorem fatal_startup_stops_everything `{Fmt} (i : Inputs) (err : error)
    (n : nat) (s : Sys) (code : Z) :
  (startup i).2 = Fatal err →
  steps (start (main i)) n s →
  exit_status (main_task s) = Some code →
  code = 1
  ∧ trace s = [Did MainTask (LogFatal err)]
  ∧ checker s = None.
Proof.
  intros Hstart Hsteps Hexit. unfold main in Hsteps. unfold startup in Hstart.
  destruct (LoadFromEnv (world i) DefaultConfig logrus.std) as [[c l] r].
  simpl in Hstart. subst r.
  destruct (fatal_runs _ _ _ _ Hsteps) as [->| ->]; simpl in *; [discriminate|].
  injection Hexit as <-. auto.
Qed.

Lemma fatal_startup_stops_everything_witness :
  trace (run 20 (start (@main plainQuote invocationBadState))).2
  = [Did MainTask (LogFatal (errorString "invalid character in state file"))].
Proof.
  apply (@fatal_startup_stops_everything plainQuote invocationBadState
           (errorString "invalid character in state file")
           (run 20 (start (@main plainQuote invocationBadState))).1
           (run 20 (start (@main plainQuote invocationBadState))).2 1).
  - vm_compute. reflexivity.
  - apply run_steps.
  - vm_compute. reflexivity.
Defined.

(** X21: when [loadGlobalFlags] returns an error in [PersistentPreRunE],
    the body of the selected command does not run: the process reports
    that error and exits with code 1. *)
Theorem flag_error_skips_body `{Fmt} (i : Inputs) (cfg cfg' : Config.t)
    (l : logrus.Logger) (g' : Globals) (appErr : option error)
    (flags : pflag.FlagSet) (body : Config.t → Globals → Run) (err : error)
    (n : nat) (s : Sys) (code : Z) :
  startup i = (cfg, l, Return appErr) →
  args i = Selected flags body →
  loadGlobalFlags cfg flags {| std := l; color_NoColor := noColor i |}
  = (cfg', g', Some err) →
  steps (start (main i)) n s →
  exit_status (main_task s) = Some code →
  code = 1
  ∧ (RunBody ∉ events_of (trace s))
  ∧ reports (trace s) = [SendReport cfg' "error" (reportMessage err)].
Proof.
  intros Hstart Hargs Hflags Hsteps Hexit.
  assert (command i cfg l
          = ([], {| cfg_after := cfg'; spinner_after := false; output := [];
                    outcome := Returned (Some err) |})) as Hcmd.
  { unfold command, Execute. rewrite Hargs, Hflags. reflexivity. }
  pose proof (main_reports _ _ _ _ _ _ _ Hstart Hsteps Hexit) as Hrep.
  destruct (main_exit _ _ _ _ _ _ _ Hstart Hsteps Hexit)
    as (t & _ & _ & _ & _ & Hcode & _).
  rewrite Hcmd in Hrep, Hcode.
  cbn [snd cfg_after spinner_after outcome final_appErr recovered] in Hrep, Hcode.
  rewrite deferred_error_report in Hrep.
  split; [|split; [|exact Hrep]].
  - rewrite bool_decide_eq_true_2 in Hcode by (left; discriminate). exact Hcode.
  - intros Hin.
    apply (main_event_origin _ _ _ _ _ _ _ _ Hstart Hsteps Hexit) in Hin
      as [Hin|[Hin|[Hin|Hin]]].
    + rewrite Hcmd in Hin. apply elem_of_nil in Hin. contradiction.
    + pose proof (deferred_reporting (cfg_after (command i cfg l).2)
                    (spinner_after (command i cfg l).2)
                    (final_appErr appErr (outcome (command i cfg l).2))
                    (recovered (outcome (command i cfg l).2))) as Hr.
      rewrite Forall_forall in Hr. specialize (Hr _ Hin). discriminate.
    + pose proof (updateCheck_is_check (answer i)) as Hc.
      rewrite Forall_forall in Hc. specialize (Hc _ Hin). discriminate.
    + destruct (update.updateInfo (answer i)); simpl in Hin.
      * apply list_elem_of_singleton in Hin. discriminate.
      * apply elem_of_nil in Hin. contradiction.
Qed.

Lemma flag_error_skips_body_witness :
  RunBody ∉ events_of (trace (run 20 (start (@main plainQuote invocationBadFlag))).2).
Proof.
  apply (@flag_error_skips_body plainQuote invocationBadFlag
           (startup invocationBadFlag).1.1
           (loadGlobalFlags (startup invocationBadFlag).1.1 flagsBadLevel
              {| std := (startup invocationBadFlag).1.2; color_NoColor := false |}).1.1
           (startup invocationBadFlag).1.2
           (loadGlobalFlags (startup invocationBadFlag).1.1 flagsBadLevel
              {| std := (startup invocationBadFlag).1.2; color_NoColor := false |}).1.2
           None flagsBadLevel bodyOk (levelError "loud")
           (run 20 (start (@main plainQuote invocationBadFlag))).1
           (run 20 (start (@main plainQuote invocationBadFlag))).2 1).
  - vm_compute. reflexivity.
  - reflexivity.
  - vm_compute. reflexivity.
  - apply run_steps.
  - vm_compute. reflexivity.
Defined.

Lemma nextCheckerFirst_step s s' : nextCheckerFirst s = Some s' → step s s'.
Proof.
  unfold nextCheckerFirst. destruct (exit_status (main_task s)) eqn:Hrun;
    [discriminate|].
  destruct s as [m c b t]. simpl in *.
  destruct c as [[e k|task k|v k|k|k| |]|]; try apply next_step.
  - intros Heq. injection Heq as <-. apply step_checker_emit. exact Hrun.
  - destruct b; [apply next_step|].
    intros Heq. injection Heq as <-. apply step_close. exact Hrun.
Qed.

Lemma runCheckerFirst_steps fuel :
  ∀ s, steps s (runCheckerFirst fuel s).1 (runCheckerFirst fuel s).2.
Proof.
  induction fuel as [|fuel IH]; intros s; simpl.
  - apply steps_O.
  - destruct (nextCheckerFirst s) as [s'|] eqn:E; [|apply steps_O].
    specialize (IH s'). destruct (runCheckerFirst fuel s') as [n s'']. simpl in *.
    eapply steps_first; [apply nextCheckerFirst_step; exact E | exact IH].
Qed.

(** X22: for a given answer of the update check, how the two tasks are
    scheduled does not show in what the main task does: two runs of [main]
    on the same inputs that have ended have the same exit code, the same
    events of the main task in the same order, and the same operations on
    the channel.  (What the goroutine reads through the shared [Config] and
    what the logger writes for its [Debugf] may depend on the schedule;
    they are not part of a run, see [updateCheck].) *)
Theorem schedule_does_not_matter `{Fmt} (i : Inputs) (n1 n2 : nat) (s1 s2 : Sys)
    (code1 code2 : Z) :
  steps (start (main i)) n1 s1 →
  exit_status (main_task s1) = Some code1 →
  steps (start (main i)) n2 s2 →
  exit_status (main_task s2) = Some code2 →
  code1 = code2
  ∧ proj MainTask (trace s1) = proj MainTask (trace s2)
  ∧ channel_ops (trace s1) = channel_ops (trace s2).
Proof.
  intros Hs1 He1 Hs2 He2.
  destruct (startup i) as [[cfg l] r] eqn:Hstart. destruct r as [appErr|err|].
  - destruct (main_exit _ _ _ _ _ _ _ Hstart Hs1 He1)
      as (t1 & Ht1 & Hm1 & Hk1 & Hh1 & Hc1 & _).
    destruct (main_exit _ _ _ _ _ _ _ Hstart Hs2 He2)
      as (t2 & Ht2 & Hm2 & Hk2 & Hh2 & Hc2 & _).
    split; [congruence|].
    rewrite Ht1, Ht2, !proj_app, !channel_ops_app, !proj_cons.
    change (channel_ops (Handoff (update.updateInfo (answer i))
              :: map (Did MainTask) (notice (update.updateInfo (answer i)))))
      with (Handoff (update.updateInfo (answer i))
              :: channel_ops (map (Did MainTask) (notice (update.updateInfo (answer i))))).
    rewrite !proj_map_main, !channel_ops_map.
    rewrite Hm1, Hm2, Hh1, Hh2. auto.
  - unfold main in Hs1, Hs2. unfold startup in Hstart. rewrite Hstart in Hs1, Hs2.
    destruct (fatal_runs _ _ _ _ Hs1) as [->| ->]; simpl in He1; [discriminate|].
    destruct (fatal_runs _ _ _ _ Hs2) as [->| ->]; simpl in He2; [discriminate|].
    split; [congruence | auto].
  - unfold main in Hs1, Hs2. unfold startup in Hstart. rewrite Hstart in Hs1, Hs2.
    rewrite (exit_runs _ _ _ Hs1) in *. rewrite (exit_runs _ _ _ Hs2) in *.
    simpl in *. split; [congruence | auto].
Qed.

Lemma schedule_does_not_matter_witness :
  trace (run 20 (start (@main plainQuote invocationCheckFails))).2
  ≠ trace (runCheckerFirst 20 (start (@main plainQuote invocationCheckFails))).2
  ∧ proj MainTask (trace (run 20 (start (@main plainQuote invocationCheckFails))).2)
    = proj MainTask
        (trace (runCheckerFirst 20 (start (@main plainQuote invocationCheckFails))).2).
Proof.
  split; [vm_compute; discriminate|].
  apply (@schedule_does_not_matter plainQuote invocationCheckFails
           (run 20 (start (@main plainQuote invocationCheckFails))).1
           (runCheckerFirst 20 (start (@main plainQuote invocationCheckFails))).1
           (run 20 (start (@main plainQuote invocationCheckFails))).2
           (runCheckerFirst 20 (start (@main plainQuote invocationCheckFails))).2
           1 1).
  - apply run_steps.
  - vm_compute. reflexivity.
  - apply runCheckerFirst_steps.
  - vm_compute. reflexivity.
Defined.
